(** * Light-sensor / buzzer firmware: a shallow embedding and its properties

    The firmware is MicroPython: [adc.py] (sensor normalisation),
    [buzzer.py] (PWM tone generator), [playback.py] (single-slot playback
    scheduler on the cooperative event loop), [device_api.py] (payload
    builders) and [http.py] (request router).

    Modelling conventions.
    - Python [int] is [Z]; a Python [float] is the rational it denotes, and
      every float operation is the exact operation followed by a rounding
      [rnd] about which only monotonicity and exactness on small integers
      are assumed (section variable, class [Rounding]).
    - Dynamically typed values (decoded JSON, call arguments) are [pyval].
    - Code that mutates module globals runs in the state-and-exception monad
      [M S]; an exception leaves the state as it was when raised.
    - A coroutine is a resumption [Co]: hardware actions up to the next
      [sleep_ms], where the event loop resumes it with [Wake] or throws
      [CancelledError] into it ([Cancel]).
    - The event loop is cooperative: between two suspension points code
      runs without interleaving.  A playback task advances by whole turns
      ([loop_turn]); a scheduler call is one transition.  Which task gets
      the next turn, and when a sleep elapses, is left open: the properties
      hold for every order of turns.
    - A request handler is run as one computation on the connection and the
      device; its own suspension points (socket reads and writes) lie
      between steps that do not depend on the playback tasks.
    - Text is kept in its UTF-8 encoding, as MicroPython stores a [str]:
      [bytes.decode()] checks the bytes and hands them on unchanged.
    - [ujson.loads], the text-to-float and text-to-int conversions and the
      UTF-8 check of [bytes.decode()] are platform functions and enter as
      section variables. *)

From Stdlib Require Import ZArith QArith Qround String Ascii List Bool Lia.
From stdpp Require Import base list.
Import ListNotations.

Close Scope Q_scope.
Local Open Scope Z_scope.
Set Warnings "-register-all".

(** ** Exceptions and results *)

Inductive exn_kind :=
| TypeError | ValueError | UnicodeError | AttributeError | KeyError
| ZeroDivisionError | CancelledError.

Record exn := Exn { exn_kind_of : exn_kind; exn_msg : string }.

Inductive Result (A : Type) :=
| Ok (a : A)
| Raise (e : exn).
Arguments Ok {A} a.
Arguments Raise {A} e.

Definition is_ok {A} (r : Result A) : bool :=
  match r with Ok _ => true | Raise _ => false end.

Definition rbind {A B} (r : Result A) (k : A -> Result B) : Result B :=
  match r with Ok a => k a | Raise e => Raise e end.

(** ** The state-and-exception monad *)

Definition M (S A : Type) : Type := S -> Result A * S.

Definition ret {S A} (a : A) : M S A := fun s => (Ok a, s).
Definition raise {S A} (e : exn) : M S A := fun s => (Raise e, s).
Definition bind {S A B} (m : M S A) (k : A -> M S B) : M S B :=
  fun s => match m s with
           | (Ok a, s') => k a s'
           | (Raise e, s') => (Raise e, s')
           end.
(** [try: m except Exception as e: h e]; [CancelledError] is a
    [BaseException] and passes through. *)
Definition try_except {S A} (m : M S A) (h : exn -> M S A) : M S A :=
  fun s => match m s with
           | (Ok a, s') => (Ok a, s')
           | (Raise e, s') =>
               match exn_kind_of e with
               | CancelledError => (Raise e, s')
               | _ => h e s'
               end
           end.
(** [try: m finally: f]; an exception of [f] replaces the pending outcome. *)
Definition try_finally {S A} (m : M S A) (f : M S unit) : M S A :=
  fun s => match m s with
           | (r, s') => match f s' with
                        | (Ok _, s'') => (r, s'')
                        | (Raise e, s'') => (Raise e, s'')
                        end
           end.
Definition lift_result {S A} (r : Result A) : M S A := fun s => (r, s).
Definition get {S} : M S S := fun s => (Ok s, s).
Definition modify {S} (f : S -> S) : M S unit := fun s => (Ok tt, f s).
(** Run a computation on a component of the state. *)
Definition zoom {S T A} (proj : S -> T) (upd : T -> S -> S) (m : M T A) : M S A :=
  fun s => match m (proj s) with (r, t') => (r, upd t' s) end.

Declare Scope monad_scope.
Delimit Scope monad_scope with monad.
Notation "x <- m ;; k" := (bind m (fun x => k))
  (at level 100, m at next level, right associativity) : monad_scope.
Notation "m ;; k" := (bind m (fun _ => k))
  (at level 100, right associativity) : monad_scope.
Local Open Scope monad_scope.

(** ** Python values *)

Inductive pyval :=
| PNone
| PBool (b : bool)
| PInt (z : Z)
| PFloat (q : Q)
| PStr (s : string)
| PList (l : list pyval)
| PDict (kvs : list (string * pyval)).

(** [d.get(key, default)] on the entries of a dict. *)
Fixpoint dict_lookup (key : string) (kvs : list (string * pyval)) : option pyval :=
  match kvs with
  | [] => None
  | (k, v) :: rest => if String.eqb k key then Some v else dict_lookup key rest
  end.

(** [obj.get(key, default)]: only dicts have the method. *)
Definition py_get (obj : pyval) (key : string) (default : pyval) : Result pyval :=
  match obj with
  | PDict kvs => Ok (match dict_lookup key kvs with Some v => v | None => default end)
  | _ => Raise (Exn AttributeError "object has no attribute 'get'")
  end.

(** *** Text helpers ([str.strip], [str.split], [str.lower]) *)

(** White space as MicroPython's [str] methods see it: space, and tab to
    carriage return. *)
Definition is_space (c : ascii) : bool :=
  let n := nat_of_ascii c in
  (Nat.eqb n 32 || (Nat.leb 9 n && Nat.leb n 13))%bool.

Fixpoint lstrip (s : string) : string :=
  match s with
  | String c rest => if is_space c then lstrip rest else s
  | EmptyString => EmptyString
  end.

Fixpoint rstrip (s : string) : string :=
  match s with
  | EmptyString => EmptyString
  | String c rest =>
      match rstrip rest with
      | EmptyString => if is_space c then EmptyString else String c EmptyString
      | r => String c r
      end
  end.

Definition strip (s : string) : string := rstrip (lstrip s).

Definition is_empty (s : string) : bool :=
  match s with EmptyString => true | _ => false end.

(** [s.split()]: maximal runs of non-space characters. *)
Fixpoint split_ws_aux (cur : string) (s : string) : list string :=
  match s with
  | EmptyString => if is_empty cur then [] else [cur]
  | String c rest =>
      if is_space c
      then (if is_empty cur then split_ws_aux EmptyString rest
            else cur :: split_ws_aux EmptyString rest)
      else split_ws_aux (cur ++ String c EmptyString)%string rest
  end.
Definition split_ws (s : string) : list string := split_ws_aux EmptyString s.

(** [s.split(":", 1)]: at most one cut, at the first colon. *)
Fixpoint split_colon_aux (before : string) (s : string) : list string :=
  match s with
  | EmptyString => [before]
  | String c rest =>
      if Ascii.eqb c ":"%char then [before; rest]
      else split_colon_aux (before ++ String c EmptyString)%string rest
  end.
Definition split_colon (s : string) : list string := split_colon_aux EmptyString s.

Definition lower_char (c : ascii) : ascii :=
  let n := nat_of_ascii c in
  if (Nat.leb 65 n && Nat.leb n 90)%bool then ascii_of_nat (n + 32) else c.
Fixpoint lower (s : string) : string :=
  match s with
  | EmptyString => EmptyString
  | String c rest => String (lower_char c) (lower rest)
  end.

(** ** Floats *)

(** [int(x)] of a float truncates toward zero. *)
Definition trunc (q : Q) : Z := Z.quot (Qnum q) (Zpos (Qden q)).

(** What is assumed of the rounding of float operations: it is monotone and
    leaves integers of magnitude up to 2^24 (exactly representable in
    single and double precision) unchanged. *)
Class Rounding (rnd : Q -> Q) : Prop := {
  rnd_mono : forall x y : Q, (x <= y)%Q -> (rnd x <= rnd y)%Q;
  rnd_exact : forall z : Z, Z.abs z <= 2 ^ 24 -> (rnd (inject_Z z) == inject_Z z)%Q
}.

(** ** The PWM peripheral ([machine.PWM] on GP16) *)

Record PWM := { pwm_freq : option Z; pwm_duty : Z }.

(** [_pwm.freq(f)] and [_pwm.duty_u16(v)] store what they are given. *)
Definition set_freq (f : Z) (p : PWM) : PWM :=
  {| pwm_freq := Some f; pwm_duty := pwm_duty p |}.
Definition set_duty (v : Z) (p : PWM) : PWM :=
  {| pwm_freq := pwm_freq p; pwm_duty := v |}.

Definition silent (p : PWM) : Prop := pwm_duty p = 0.

(** buzzer.py, module body: [_pwm = machine.PWM(Pin(16)); _pwm.duty_u16(0)]. *)
Definition _pwm_init : PWM := set_duty 0 {| pwm_freq := None; pwm_duty := 0 |}.

(** ** Coroutines *)

(** How the event loop resumes a suspended coroutine: the awaited sleep has
    elapsed, or [CancelledError] is thrown in at the suspension point. *)
Inductive signal := Wake | Cancel.

Inductive Co (A : Type) : Type :=
| CoRet (a : A)
| CoRaise (e : exn)
| CoHw (h : M PWM unit) (k : Result unit -> Co A)
| CoSleep (ms : Z) (k : signal -> Co A).
Arguments CoRet {A} a.
Arguments CoRaise {A} e.
Arguments CoHw {A} h k.
Arguments CoSleep {A} ms k.

Fixpoint co_bind {A B} (c : Co A) (f : A -> Co B) : Co B :=
  match c with
  | CoRet a => f a
  | CoRaise e => CoRaise e
  | CoHw h k => CoHw h (fun r => co_bind (k r) f)
  | CoSleep ms k => CoSleep ms (fun s => co_bind (k s) f)
  end.

(** [try: body finally: fin] inside a coroutine: [fin] runs when [body]
    returns, raises, or has [CancelledError] thrown in at one of its
    suspension points. *)
Fixpoint co_try_finally {A} (body : Co A) (fin : Co unit) : Co A :=
  match body with
  | CoRet a => co_bind fin (fun _ => CoRet a)
  | CoRaise e => co_bind fin (fun _ => CoRaise e)
  | CoHw h k => CoHw h (fun r => co_try_finally (k r) fin)
  | CoSleep ms k => CoSleep ms (fun s => co_try_finally (k s) fin)
  end.

(** A synchronous call into the buzzer driver from a coroutine. *)
Definition hw (h : M PWM unit) : Co unit :=
  CoHw h (fun r => match r with Ok _ => CoRet tt | Raise e => CoRaise e end).

Definition cancelled : exn := Exn CancelledError EmptyString.

(** [await asyncio.sleep_ms(ms)]: the argument must be an integer; the
    coroutine then suspends. *)
Definition sleep_ms (ms : pyval) : Co unit :=
  let suspend n :=
    CoSleep n (fun s => match s with Wake => CoRet tt | Cancel => CoRaise cancelled end) in
  match ms with
  | PInt n => suspend n
  | PBool b => suspend (Z.b2z b)
  | _ => CoRaise (Exn TypeError "unsupported types for sleep_ms")
  end.

(** [for x in xs: body x] *)
Fixpoint co_for {X} (xs : list X) (body : X -> Co unit) : Co unit :=
  match xs with
  | [] => CoRet tt
  | x :: rest => co_bind (body x) (fun _ => co_for rest body)
  end.

Declare Scope co_scope.
Delimit Scope co_scope with co.
Notation "x <- m ;; k" := (co_bind m (fun x => k))
  (at level 100, m at next level, right associativity) : co_scope.
Notation "m ;; k" := (co_bind m (fun _ => k))
  (at level 100, right associativity) : co_scope.

(** ** Tasks of the event loop *)

Inductive TaskState :=
| Created (c : Co unit)                       (* scheduled, body not yet entered *)
| Suspended (ms : Z) (k : signal -> Co unit)  (* waiting in [sleep_ms] *)
| Finished (r : Result unit).

(** [t_cancel]: [Task.cancel()] was called and the [CancelledError] has not
    been delivered yet. *)
Record Task := { t_state : TaskState; t_cancel : bool }.

(** [Task.done()] *)
Definition done (t : Task) : bool :=
  match t_state t with Finished _ => true | _ => false end.

(** Run a coroutine on the hardware up to its next suspension point. *)
Fixpoint run (c : Co unit) (p : PWM) : TaskState * PWM :=
  match c with
  | CoRet a => (Finished (Ok a), p)
  | CoRaise e => (Finished (Raise e), p)
  | CoHw h k => match h p with (r, p') => run (k r) p' end
  | CoSleep ms k => (Suspended ms k, p)
  end.

(** The event loop gives one turn to a task.  A pending cancellation is
    delivered: into the body at its suspension point, or, for a task that
    never started, without entering the body at all. *)
Definition resume (t : Task) (p : PWM) : Task * PWM :=
  match t_state t with
  | Finished _ => (t, p)
  | Created c =>
      if t_cancel t then ({| t_state := Finished (Raise cancelled); t_cancel := false |}, p)
      else match run c p with (st, p') => ({| t_state := st; t_cancel := false |}, p') end
  | Suspended _ k =>
      match run (k (if t_cancel t then Cancel else Wake)) p with
      | (st, p') => ({| t_state := st; t_cancel := false |}, p')
      end
  end.

(** The lifecycle of the specification, read off a task. *)
Inductive Lifecycle := Running | Completed | Canceled | Failed.

Definition is_cancelled_error (e : exn) : bool :=
  match exn_kind_of e with CancelledError => true | _ => false end.

Definition lifecycle (t : Task) : Lifecycle :=
  match t_state t with
  | Finished (Ok _) => Completed
  | Finished (Raise e) => if is_cancelled_error e then Canceled else Failed
  | _ => if t_cancel t then Canceled else Running
  end.

Definition running (t : Task) : bool :=
  match lifecycle t with Running => true | _ => false end.

(** ** Device state: the module globals and the peripherals *)

Record Device := {
  pwm : PWM;                      (* buzzer._pwm *)
  adc_sample : Z;                 (* what adc.read_u16() returns now *)
  tasks : list Task;              (* tasks of the event loop, in creation order *)
  _current_task : option nat      (* playback._current_task, a task handle *)
}.

Definition with_pwm (p : PWM) (d : Device) : Device :=
  {| pwm := p; adc_sample := adc_sample d; tasks := tasks d;
     _current_task := _current_task d |}.
Definition with_tasks (ts : list Task) (d : Device) : Device :=
  {| pwm := pwm d; adc_sample := adc_sample d; tasks := ts;
     _current_task := _current_task d |}.
Definition with_current (c : option nat) (d : Device) : Device :=
  {| pwm := pwm d; adc_sample := adc_sample d; tasks := tasks d;
     _current_task := c |}.

(** State after the modules are imported. *)
Definition boot (sample : Z) : Device :=
  {| pwm := _pwm_init; adc_sample := sample; tasks := []; _current_task := None |}.

(** A buzzer call made from code that runs on the device state. *)
Definition on_pwm {A} (m : M PWM A) : M Device A := zoom pwm with_pwm m.

(** [asyncio.create_task(coro)]: the task is queued; its handle is returned. *)
Definition create_task (c : Co unit) : M Device nat :=
  fun d => (Ok (length (tasks d)),
            with_tasks (tasks d ++ [{| t_state := Created c; t_cancel := false |}]) d).

Definition task_done (h : nat) : M Device bool :=
  fun d => (Ok (match tasks d !! h with Some t => done t | None => true end), d).

(** [Task.cancel()]: a finished task is left alone (returns [False]). *)
Definition task_cancel (h : nat) : M Device bool :=
  fun d => match tasks d !! h with
           | Some t =>
               if done t then (Ok false, d)
               else (Ok true,
                     with_tasks (<[h := {| t_state := t_state t; t_cancel := true |}]> (tasks d)) d)
           | None => (Ok false, d)
           end.

(** One turn of the event loop, given to task [h]. *)
Definition loop_turn (h : nat) (d : Device) : Device :=
  match tasks d !! h with
  | Some t =>
      match resume t (pwm d) with
      | (t', p') => with_pwm p' (with_tasks (<[h := t']> (tasks d)) d)
      end
  | None => d
  end.

(** ** Connections and the handler environment *)

(** A reply as [send_json] frames it: status line and the object that is
    serialised as the body.  Every [pyval] is JSON, so [ujson.dumps] does
    not raise on it and the fallback body of [send_json] is never used. *)
Record Response := { status : Z; reason : string; body : pyval }.

(** The stream reader is what the peer makes it return: the results of the
    successive [readline()] calls (an empty result is end of stream), then
    the bytes the successive [read(n)] calls find available. *)
Record Conn := {
  rd_lines : list string;
  rd_chunks : list string;
  sent : list Response;           (* replies written, oldest first *)
  closed : bool
}.

Record Env := {
  device : Device;
  conn : Conn;
  uptime_ms : Z;                  (* utime.ticks_ms() *)
  heap_free : Z                   (* gc.mem_free() *)
}.

Definition with_device (d : Device) (e : Env) : Env :=
  {| device := d; conn := conn e; uptime_ms := uptime_ms e; heap_free := heap_free e |}.
Definition with_conn (c : Conn) (e : Env) : Env :=
  {| device := device e; conn := c; uptime_ms := uptime_ms e; heap_free := heap_free e |}.

Definition on_device {A} (m : M Device A) : M Env A := zoom device with_device m.
Definition on_conn {A} (m : M Conn A) : M Env A := zoom conn with_conn m.

Definition CR : ascii := ascii_of_nat 13.
Definition LF : ascii := ascii_of_nat 10.
Definition crlf : string := String CR (String LF EmptyString).
Definition lf : string := String LF EmptyString.

Definition strlen (s : string) : Z := Z.of_nat (String.length s).

(** [await reader.readline()] *)
Definition readline : M Conn string :=
  fun c => match rd_lines c with
           | [] => (Ok EmptyString, c)
           | l :: rest =>
               (Ok l, {| rd_lines := rest; rd_chunks := rd_chunks c;
                         sent := sent c; closed := closed c |})
           end.

(** [await writer.aclose()] / [writer.close()] *)
Definition close_writer : M Conn unit :=
  modify (fun c => {| rd_lines := rd_lines c; rd_chunks := rd_chunks c;
                      sent := sent c; closed := true |}).

Definition write_response (r : Response) : M Conn unit :=
  modify (fun c => {| rd_lines := rd_lines c; rd_chunks := rd_chunks c;
                      sent := sent c ++ [r]; closed := closed c |}).

(** What a call expression evaluates to: the value a plain [def] returned,
    or the coroutine object an [async def] produced.  Only the latter can be
    awaited. *)
Inductive called (S A : Type) :=
| Returned (a : A)
| Coroutine (c : M S A).
Arguments Returned {S A} a.
Arguments Coroutine {S A} c.

Definition call_def {S A} (m : M S A) : M S (called S A) :=
  a <- m ;; ret (Returned a).
Definition call_async {S A} (m : M S A) : M S (called S A) :=
  ret (Coroutine m).
Definition await {S A} (x : called S A) : M S A :=
  match x with
  | Coroutine c => c
  | Returned _ => raise (Exn TypeError "object isn't awaitable")
  end.

Section Firmware.

(** Rounding of float operations, decoding of JSON text ([ujson.loads];
    [None] when it raises) and [float(text)]. *)
Context (rnd : Q -> Q).
Context (ujson_loads : string -> option pyval).
Context (float_of_str : string -> option Q).
Context (int_of_str : string -> option Z).
Context (utf8_check : string -> bool).

(** ** buzzer.py *)

(** [v <= 0] for a dynamically typed [v]. *)
Definition py_le_zero (v : pyval) : Result bool :=
  match v with
  | PInt z => Ok (z <=? 0)
  | PBool b => Ok (Z.b2z b <=? 0)
  | PFloat q => Ok (Qle_bool q 0)
  | _ => Raise (Exn TypeError "unsupported types for __le__")
  end.

(** [_pwm.freq(freq)]: the peripheral wants an integer. *)
Definition _pwm_freq (freq : pyval) : M PWM unit :=
  match freq with
  | PInt f => modify (set_freq f)
  | PBool b => modify (set_freq (Z.b2z b))
  | _ => raise (Exn TypeError "can't convert to int")
  end.

(** [_pwm.duty_u16(v)]: no range check on the way to the register. *)
Definition _pwm_duty_u16 (v : Z) : M PWM unit := modify (set_duty v).

Definition stop_tone : M PWM unit := _pwm_duty_u16 0.

Definition start_tone (freq : pyval) (duty : Q) : M PWM unit :=
  nonpos <- lift_result (py_le_zero freq) ;;
  if (nonpos : bool) then stop_tone
  else
    _pwm_freq freq ;;
    let duty_val := trunc (rnd (inject_Z 65535 * duty)) in
    _pwm_duty_u16 duty_val.

(** ** adc.py *)

Definition RAW_MIN : Z := 600.
Definition RAW_MAX : Z := 65338.

Definition read_sensor_raw : M Device Z := fun d => (Ok (adc_sample d), d).

(** [a / b] on integers: true division, a float. *)
Definition truediv (a b : Z) : Result Q :=
  if b =? 0 then Raise (Exn ZeroDivisionError "divide by zero")
  else Ok (rnd (inject_Z a / inject_Z b)).

Definition normalize_raw (raw min_in max_in : Z) : Result Q :=
  let raw := if raw <? min_in then min_in
             else if raw >? max_in then max_in
             else raw in
  truediv (raw - min_in) (max_in - min_in).

Definition estimate_lux (norm : Q) : Q := rnd (norm * inject_Z 1000).

(** A parameter without default that the call leaves unbound. *)
Definition required {A} (name : string) (arg : option A) : Result A :=
  match arg with
  | Some a => Ok a
  | None => Raise (Exn TypeError ("missing required positional argument: " ++ name))
  end.

(** [normalize_raw] as callers reach it.  The signature is
    [def normalize_raw(raw: int, min_in: RAW_MIN, max_in: RAW_MAX)]: the
    calibration constants are annotations, not defaults, so all three
    parameters must be supplied. *)
Definition call_normalize_raw (raw min_in max_in : option Z) : Result Q :=
  rbind (required "raw" raw) (fun raw =>
  rbind (required "min_in" min_in) (fun min_in =>
  rbind (required "max_in" max_in) (fun max_in =>
  normalize_raw raw min_in max_in))).

(** ** playback.py *)

Local Open Scope co_scope.

Definition _play_note_async (freq ms : Z) (duty : Q) : Co unit :=
  co_try_finally
    (hw (start_tone (PInt freq) duty) ;;
     sleep_ms (PInt ms))
    (hw stop_tone).

(** [freq, ms = note] for a list, [note["freq"], note["ms"]] otherwise. *)
Definition unpack_note (note : pyval) : Co (pyval * pyval) :=
  match note with
  | PList [freq; ms] => CoRet (freq, ms)
  | PList _ => CoRaise (Exn ValueError "wrong number of values to unpack")
  | PDict kvs =>
      match dict_lookup "freq" kvs with
      | None => CoRaise (Exn KeyError "freq")
      | Some freq =>
          match dict_lookup "ms" kvs with
          | None => CoRaise (Exn KeyError "ms")
          | Some ms => CoRet (freq, ms)
          end
      end
  | _ => CoRaise (Exn TypeError "object isn't subscriptable")
  end.

Definition _play_melody_async (notes : list pyval) (gap_ms : Z) (duty : Q) : Co unit :=
  co_try_finally
    (co_for notes (fun note =>
       fm <- unpack_note note ;;
       hw (start_tone (fst fm) duty) ;;
       sleep_ms (snd fm) ;;
       hw stop_tone ;;
       sleep_ms (PInt gap_ms)))
    (hw stop_tone).

Local Close Scope co_scope.

Definition cancel_current_playback : M Device unit :=
  d <- get ;;
  (match _current_task d with
   | Some t =>
       finished <- task_done t ;;
       if (finished : bool) then ret tt
       else task_cancel t ;; on_pwm stop_tone
   | None => ret tt
   end) ;;
  modify (with_current None).

Definition play_tone_for_ms (freq ms : Z) (duty : Q) : M Device unit :=
  cancel_current_playback ;;
  t <- create_task (_play_note_async freq ms duty) ;;
  modify (with_current (Some t)).

Definition play_melody (notes : list pyval) (gap_ms : Z) (duty : Q) : M Device Z :=
  cancel_current_playback ;;
  t <- create_task (_play_melody_async notes gap_ms duty) ;;
  modify (with_current (Some t)) ;;
  ret (Z.of_nat (length notes)).

(** ** The device as a transition system *)

Inductive event :=
| EvTone (freq ms : Z) (duty : Q)
| EvMelody (notes : list pyval) (gap_ms : Z) (duty : Q)
| EvCancel
| EvTurn (h : nat)          (* the event loop resumes task [h] *)
| EvSample (raw : Z).       (* the light on the sensor changes *)

Definition step (e : event) (d : Device) : Device :=
  match e with
  | EvTone freq ms duty => snd (play_tone_for_ms freq ms duty d)
  | EvMelody notes gap_ms duty => snd (play_melody notes gap_ms duty d)
  | EvCancel => snd (cancel_current_playback d)
  | EvTurn h => loop_turn h d
  | EvSample raw =>
      {| pwm := pwm d; adc_sample := raw; tasks := tasks d;
         _current_task := _current_task d |}
  end.

Inductive reachable : Device -> Prop :=
| reach_boot sample : reachable (boot sample)
| reach_step d e : reachable d -> reachable (step e d).

Local Open Scope string_scope.

(** ** device_api.py *)

(** [norm = normalize_raw(raw)]: one argument for three parameters. *)
Definition sensor_payload : M Device pyval :=
  raw <- read_sensor_raw ;;
  norm <- lift_result (call_normalize_raw (Some raw) None None) ;;
  let lux := estimate_lux norm in
  ret (PDict [("raw", PInt raw); ("norm", PFloat norm); ("lux", PFloat lux)]).

Definition health_payload (device_id : string) : M Env pyval :=
  e <- get ;;
  sensor <- on_device sensor_payload ;;
  ret (PDict [("device_id", PStr device_id); ("uptime_ms", PInt (uptime_ms e));
              ("heap_free", PInt (heap_free e)); ("sensor", sensor)]).

(** ** http.py *)

(** http.py imports [play_tone_for_ms], [play_melody] and [cancel_playback]
    from device_api, which defines none of them.  The first two are the
    scheduler functions of playback.py, the only definitions of these names,
    and the handlers are modelled with the names bound to them. *)

(** Modelled from the spec: [cancel_playback], which no module defines.
    The specification routes [POST /cancel] to the scheduler's [cancel()],
    which playback.py implements as [cancel_current_playback]. *)
Definition cancel_playback : M Device unit := cancel_current_playback.

Definition _STATUS_TEXT : list (Z * string) :=
  [(200, "OK"); (202, "Accepted"); (204, "No Content"); (400, "Bad Request");
   (404, "Not Found"); (405, "Method Not Allowed");
   (415, "Unsupported Media Type"); (500, "Internal Server Error")]%string.

Fixpoint status_text (table : list (Z * string)) (code : Z) : string :=
  match table with
  | [] => "OK"
  | (c, r) :: rest => if Z.eqb c code then r else status_text rest code
  end.

Definition send_json (code : Z) (obj : pyval) : M Env unit :=
  on_conn (write_response
             {| status := code; reason := status_text _STATUS_TEXT code; body := obj |}).

(** [int(v)]; which texts denote an integer is the platform's matter
    ([int_of_str]). *)
Definition py_int (v : pyval) : Result Z :=
  match v with
  | PInt z => Ok z
  | PBool b => Ok (Z.b2z b)
  | PFloat q => Ok (trunc q)
  | PStr s => match int_of_str s with
              | Some z => Ok z
              | None => Raise (Exn ValueError "invalid syntax for integer")
              end
  | _ => Raise (Exn TypeError "can't convert to int")
  end.

(** [float(v)] *)
Definition py_float (v : pyval) : Result Q :=
  match v with
  | PFloat q => Ok q
  | PInt z => Ok (rnd (inject_Z z))
  | PBool b => Ok (inject_Z (Z.b2z b))
  | PStr s => match float_of_str s with
              | Some q => Ok q
              | None => Raise (Exn ValueError "invalid syntax for number")
              end
  | _ => Raise (Exn TypeError "can't convert to float")
  end.

Definition handle_get_sensor : M Env unit :=
  data <- on_device sensor_payload ;;
  x <- call_async (send_json 200 data) ;; await x.

Definition handle_get_health : M Env unit :=
  data <- health_payload "pico-w-unknown" ;;
  x <- call_async (send_json 200 data) ;; await x.

(** The [try] block of [handle_post_tone]. *)
Definition tone_params (body : pyval) : Result (Z * Z * Q) :=
  rbind (rbind (py_get body "freq" PNone) py_int) (fun freq =>
  rbind (rbind (py_get body "ms" (PInt 250)) py_int) (fun ms =>
  rbind (rbind (py_get body "duty" (PFloat (1 # 2))) py_float) (fun duty =>
  Ok (freq, ms, duty)))).

Definition handle_post_tone (body : pyval) : M Env unit :=
  match tone_params body with
  | Raise e =>
      match exn_kind_of e with
      | CancelledError => raise e
      | _ => x <- call_async (send_json 400 (PDict [("error", PStr "Invalid tone parameters")])) ;;
             await x
      end
  | Ok (freq, ms, duty) =>
      r <- call_def (on_device (play_tone_for_ms freq ms duty)) ;;
      await r ;;
      x <- call_async (send_json 202
             (PDict [("status", PStr "tone played"); ("freq", PInt freq);
                     ("ms", PInt ms); ("duty", PFloat duty)])) ;;
      await x
  end.

(** [isinstance(n, (list, tuple)) and len(n) == 2] *)
Definition is_pair (n : pyval) : bool :=
  match n with PList [_; _] => true | _ => false end.

(** The [try] block of [handle_post_melody]. *)
Definition melody_params (body : pyval) : Result (list pyval * Z * Q) :=
  rbind (py_get body "notes" (PList [])) (fun notes =>
  rbind (rbind (py_get body "gap_ms" (PInt 50)) py_int) (fun gap_ms =>
  rbind (rbind (py_get body "duty" (PFloat (1 # 2))) py_float) (fun duty =>
  match notes with
  | PList ns =>
      if forallb is_pair ns then Ok (ns, gap_ms, duty)
      else Raise (Exn ValueError "notes must be [[freq, ms], ...]")
  | _ => Raise (Exn ValueError "notes must be [[freq, ms], ...]")
  end))).

Definition handle_post_melody (body : pyval) : M Env unit :=
  match melody_params body with
  | Raise e =>
      match exn_kind_of e with
      | CancelledError => raise e
      | _ => x <- call_async (send_json 400
                    (PDict [("error", PStr "Invalid melody payload");
                            ("detail", PStr (exn_msg e))])) ;;
             await x
      end
  | Ok (notes, gap_ms, duty) =>
      r <- call_def (on_device (play_melody notes gap_ms duty)) ;;
      await r ;;
      x <- call_async (send_json 202
             (PDict [("status", PStr "melody played");
                     ("length", PInt (Z.of_nat (length notes)));
                     ("gap_ms", PInt gap_ms); ("duty", PFloat duty)])) ;;
      await x
  end.

Definition handle_post_cancel : M Env unit :=
  try_except
    (on_device cancel_playback ;;
     x <- call_async (send_json 202 (PDict [("status", PStr "canceled")])) ;;
     await x)
    (fun e =>
       x <- call_async (send_json 500
              (PDict [("error", PStr "internal"); ("detail", PStr (exn_msg e))])) ;;
       await x).

(** [b.decode()]: the bytes are the text when they pass the platform's
    UTF-8 check, and the call raises otherwise. *)
Definition decode (b : string) : Result string :=
  if utf8_check b then Ok b
  else Raise (Exn UnicodeError "can't decode bytes as utf-8").

(** The header loop of [handle_client]: lines up to the first empty one,
    each decoded once it has been read; [headers[k] = v] puts the newest
    binding first.  A line that does not decode ends the loop with the
    error, the lines after it unread. *)
Fixpoint read_headers_from (lines : list string) (headers : list (string * string))
  : Result (list (string * string)) * list string :=
  match lines with
  | [] => (Ok headers, [])
  | line :: rest =>
      if (is_empty line || String.eqb line crlf || String.eqb line lf)%bool
      then (Ok headers, rest)
      else match decode line with
           | Raise e => (Raise e, rest)
           | Ok text =>
               match split_colon text with
               | [k; v] => read_headers_from rest ((lower (strip k), strip v) :: headers)
               | _ => read_headers_from rest headers
               end
           end
  end.

Definition read_headers : M Conn (list (string * string)) :=
  fun c => match read_headers_from (rd_lines c) [] with
           | (r, rest) =>
               (r, {| rd_lines := rest; rd_chunks := rd_chunks c;
                      sent := sent c; closed := closed c |})
           end.

Fixpoint header_get (key : string) (headers : list (string * string)) (default : string)
  : string :=
  match headers with
  | [] => default
  | (k, v) :: rest => if String.eqb k key then v else header_get key rest default
  end.

Definition take_bytes (n : Z) (s : string) : string := substring 0 (Z.to_nat n) s.
Definition drop_bytes (n : Z) (s : string) : string :=
  substring (Z.to_nat n) (String.length s - Z.to_nat n) s.

(** The body loop of [handle_client].  [read(n)] hands over at most [n]
    bytes of what is available; what it leaves behind stays buffered, and
    then [clen] bytes are in and the loop is over. *)
Fixpoint read_body_from (clen : Z) (body_bytes : string) (chunks : list string)
  : string * list string :=
  if Z.ltb (strlen body_bytes) clen then
    match chunks with
    | [] => (body_bytes, [])
    | available :: rest =>
        let chunk := take_bytes (clen - strlen body_bytes) available in
        let left := drop_bytes (clen - strlen body_bytes) available in
        if is_empty chunk then (body_bytes, rest)
        else if is_empty left then read_body_from clen (body_bytes ++ chunk)%string rest
        else ((body_bytes ++ chunk)%string, left :: rest)
    end
  else (body_bytes, chunks).

Definition read_body (clen : Z) : M Conn string :=
  fun c => match read_body_from clen EmptyString (rd_chunks c) with
           | (body_bytes, rest) =>
               (Ok body_bytes, {| rd_lines := rd_lines c; rd_chunks := rest;
                                  sent := sent c; closed := closed c |})
           end.

Definition not_found : M Env unit :=
  x <- call_async (send_json 404 (PDict [("error", PStr "Not Found")])) ;; await x.

Definition route_get (path : string) : M Env unit :=
  if String.eqb path "/sensor" then x <- call_async handle_get_sensor ;; await x
  else if String.eqb path "/health" then x <- call_async handle_get_health ;; await x
  else not_found.

(** [int(headers.get("content-length", "0") or "0")] *)
Definition content_length (headers : list (string * string)) : Result Z :=
  let text := header_get "content-length" headers "0" in
  py_int (PStr (if is_empty text then "0" else text)).

(** [ujson.loads(body_bytes) if body_bytes else {}]; [None] when decoding
    raises. *)
Definition decode_body (body_bytes : string) : option pyval :=
  if is_empty body_bytes then Some (PDict []) else ujson_loads body_bytes.

Definition dispatch_post (path : string) (body : pyval) : M Env unit :=
  if String.eqb path "/tone" then
    x <- call_async (handle_post_tone body) ;; await x
  else if String.eqb path "/melody" then
    x <- call_async (handle_post_melody body) ;; await x
  else if String.eqb path "/cancel" then
    x <- call_async handle_post_cancel ;; await x
  else not_found.

Definition route_post (path : string) (headers : list (string * string)) : M Env unit :=
  clen <- lift_result (content_length headers) ;;
  body_bytes <- on_conn (read_body clen) ;;
  match decode_body body_bytes with
  | None =>
      x <- call_async (send_json 400 (PDict [("error", PStr "Invalid JSON")])) ;; await x
  | Some body => dispatch_post path body
  end.

(** The [try] block of [handle_client]. *)
Definition serve_request : M Env unit :=
  req_line <- on_conn readline ;;
  if is_empty req_line then on_conn close_writer
  else
    text <- lift_result (decode req_line) ;;
    match split_ws (strip text) with
    | method :: path :: _ =>
        headers <- on_conn read_headers ;;
        if String.eqb method "GET" then route_get path
        else if String.eqb method "POST" then route_post path headers
        else x <- call_async (send_json 405 (PDict [("error", PStr "Method Not Allowed")])) ;;
             await x
    | _ =>
        x <- call_async (send_json 400 (PDict [("error", PStr "Bad Request")])) ;; await x
    end.

(** The [except Exception] and [finally] clauses of [handle_client]. *)
Definition guard_connection (m : M Env unit) : M Env unit :=
  try_finally
    (try_except m
       (fun e =>
          try_except
            (x <- call_async (send_json 500
                    (PDict [("error", PStr "internal"); ("detail", PStr (exn_msg e))])) ;;
             await x)
            (fun _ => ret tt)))
    (try_except (on_conn close_writer) (fun _ => ret tt)).

Definition handle_client : M Env unit := guard_connection serve_request.

Local Close Scope string_scope.

(** ** Predicates used to state the properties *)

(** [c] ends, without suspending, in [CancelledError] and a silent buzzer. *)
Definition cleans (c : Co unit) : Prop :=
  forall p, exists p', run c p = (Finished (Raise cancelled), p') /\ silent p'.

Fixpoint guarded (c : Co unit) (p : PWM) : Prop :=
  match c with
  | CoRet _ | CoRaise _ => silent p
  | CoHw h k => guarded (k (fst (h p))) (snd (h p))
  | CoSleep _ k => (forall p', guarded (k Wake) p') /\ cleans (k Cancel)
  end.

Fixpoint interruptible {A} (c : Co A) : Prop :=
  match c with
  | CoRet _ | CoRaise _ => True
  | CoHw _ k => forall r, interruptible (k r)
  | CoSleep _ k => interruptible (k Wake) /\ k Cancel = CoRaise cancelled
  end.

Definition task_ok (t : Task) : Prop :=
  match t_state t with
  | Created c => forall p, guarded c p
  | Suspended _ k => (forall p, guarded (k Wake) p) /\ cleans (k Cancel)
  | Finished _ => True
  end.

Record inv (d : Device) : Prop := {
  inv_tasks : forall h t, tasks d !! h = Some t -> task_ok t;
  inv_slot : forall h t, tasks d !! h = Some t -> running t = true -> _current_task d = Some h;
  inv_fresh : forall h t, _current_task d = Some h -> tasks d !! h = Some t -> t_cancel t = false;
  inv_silent : (forall h t, tasks d !! h = Some t -> running t = false) -> silent (pwm d)
}.

(** What [Task.cancel()] does to a task that is not finished. *)
Definition mark_cancelled (t : Task) : Task :=
  {| t_state := t_state t; t_cancel := true |}.

Definition new_task (c : Co unit) : Task := {| t_state := Created c; t_cancel := false |}.

(** Installing a fresh task in the slot of a device on which nothing runs. *)
Definition install (c : Co unit) (d : Device) : Device :=
  with_current (Some (length (tasks d))) (with_tasks (tasks d ++ [new_task c]) d).

Local Open Scope string_scope.

Definition reply (code : Z) (obj : pyval) : Response :=
  {| status := code; reason := status_text _STATUS_TEXT code; body := obj |}.

(** The environment once the request line, the headers and the body have
    been consumed. *)
Definition consumed (lines chunks : list string) (e : Env) : Env :=
  with_conn {| rd_lines := lines; rd_chunks := chunks;
               sent := sent (conn e); closed := closed (conn e) |} e.

(** The environment after one more reply. *)
Definition written (r : Response) (e : Env) : Env :=
  with_conn {| rd_lines := rd_lines (conn e); rd_chunks := rd_chunks (conn e);
               sent := sent (conn e) ++ [r]; closed := closed (conn e) |} e.

(** The environment after one more reply and the closing of the writer. *)
Definition replied (r : Response) (e : Env) : Env :=
  with_conn {| rd_lines := rd_lines (conn e); rd_chunks := rd_chunks (conn e);
               sent := sent (conn e) ++ [r]; closed := true |} e.

Definition tone_body (freq ms : Z) (duty : Q) : pyval :=
  PDict [("freq", PInt freq); ("ms", PInt ms); ("duty", PFloat duty)].

Local Close Scope string_scope.

(** ** Sample inputs *)

(** Rounding that changes nothing: every value is taken as representable. *)
Definition exact_rnd (q : Q) : Q := q.
(** A text-to-float conversion that accepts nothing. *)
Definition no_float (s : string) : option Q := None.

Definition digit_of (c : ascii) : option Z :=
  let n := nat_of_ascii c in
  if (Nat.leb 48 n && Nat.leb n 57)%bool then Some (Z.of_nat n - 48) else None.

(** Decimal digits, with single underscores between digits. *)
Fixpoint digits_value (acc : Z) (after_digit : bool) (s : string) : option Z :=
  match s with
  | EmptyString => if after_digit then Some acc else None
  | String c rest =>
      match digit_of c with
      | Some d => digits_value (10 * acc + d) true rest
      | None =>
          if (Ascii.eqb c "_"%char && after_digit)%bool then digits_value acc false rest
          else None
      end
  end.

(** A text-to-int conversion for the sample requests: white space around
    an optional sign and a decimal numeral; it accepts no other text. *)
Definition decimal_int (s : string) : option Z :=
  match strip s with
  | EmptyString => None
  | String c rest =>
      if Ascii.eqb c "-"%char then option_map Z.opp (digits_value 0 false rest)
      else if Ascii.eqb c "+"%char then digits_value 0 false rest
      else digits_value 0 false (String c rest)
  end.

Definition byte_in (lo hi : nat) (c : ascii) : bool :=
  let n := nat_of_ascii c in (Nat.leb lo n && Nat.leb n hi)%bool.

(** The range of the second byte of a three-byte and of a four-byte
    sequence, which depends on the first. *)
Definition second_of_3 (b0 b1 : ascii) : bool :=
  if byte_in 224 224 b0 then byte_in 160 191 b1
  else if byte_in 237 237 b0 then byte_in 128 159 b1
  else byte_in 128 191 b1.
Definition second_of_4 (b0 b1 : ascii) : bool :=
  if byte_in 240 240 b0 then byte_in 144 191 b1
  else if byte_in 244 244 b0 then byte_in 128 143 b1
  else byte_in 128 191 b1.

(** A UTF-8 check for the sample requests: the well-formed byte sequences
    of the Unicode standard (no overlong form, no surrogate, nothing above
    U+10FFFF). *)
Fixpoint well_formed_utf8 (s : string) : bool :=
  match s with
  | EmptyString => true
  | String b0 r0 =>
      if byte_in 0 127 b0 then well_formed_utf8 r0
      else
        match r0 with
        | EmptyString => false
        | String b1 r1 =>
            if byte_in 194 223 b0 then (byte_in 128 191 b1 && well_formed_utf8 r1)%bool
            else
              match r1 with
              | EmptyString => false
              | String b2 r2 =>
                  if byte_in 224 239 b0
                  then (second_of_3 b0 b1 && byte_in 128 191 b2 && well_formed_utf8 r2)%bool
                  else
                    match r2 with
                    | EmptyString => false
                    | String b3 r3 =>
                        (byte_in 240 244 b0 && second_of_4 b0 b1 && byte_in 128 191 b2
                         && byte_in 128 191 b3 && well_formed_utf8 r3)%bool
                    end
              end
        end
  end.

(** A decoder under which every body text denotes [v]. *)
Definition decodes_to (v : pyval) (s : string) : option pyval := Some v.

(** A fresh connection on a freshly booted device: the request line, the
    header lines, and [chunks] as the body bytes to come. *)
Definition request (line : string) (headers : list string) (chunks : list string) : Env :=
  {| device := boot 1000;
     conn := {| rd_lines := (line ++ crlf)%string
                            :: map (fun h => (h ++ crlf)%string) headers ++ [crlf];
                rd_chunks := chunks; sent := []; closed := false |};
     uptime_ms := 0; heap_free := 0 |}.

(** A device on which a tone is sounding. *)
Definition playing : Device :=
  step (EvTurn 0%nat) (step (EvTone 440 200 (1 # 2)) (boot 1000)).

(** ** Turns of a single task *)

(** [n] further turns of a task, each sleep elapsing: the state of the task
    and of the PWM after them. *)
Fixpoint wake (n : nat) (st : TaskState * PWM) : TaskState * PWM :=
  match n with
  | O => st
  | S n' =>
      match fst st with
      | Created c => wake n' (run c (snd st))
      | Suspended _ k => wake n' (run (k Wake) (snd st))
      | Finished _ => st
      end
  end.

(** A well-formed melody note, as the request body carries it. *)
Definition pair_note (note : Z * Z) : pyval := PList [PInt (fst note); PInt (snd note)].

(** The value [start_tone] writes to the duty register. *)
Definition duty_u16_of (duty : Q) : Z := trunc (rnd (inject_Z 65535 * duty)).

(** ** Outcomes of a request handler *)

(** The device is untouched or has made one scheduler transition. *)
Definition dev_moves (d d' : Device) : Prop := d' = d \/ exists ev, d' = step ev d.

(** What the handler may change silently: the reader's position. *)
Definition same_base (e e1 : Env) : Prop :=
  sent (conn e1) = sent (conn e) /\ closed (conn e1) = closed (conn e)
  /\ device e1 = device e.

(** Starting from [e], the outcome [out] is a normal return after exactly
    one reply, with a status among [codes]. *)
Definition answered (codes : list Z) (e : Env) (out : Result unit * Env) : Prop :=
  exists r,
    fst out = Ok tt
    /\ sent (conn (snd out)) = sent (conn e) ++ [r]
    /\ In (status r) codes
    /\ closed (conn (snd out)) = closed (conn e)
    /\ dev_moves (device e) (device (snd out)).

(** Starting from [e], the outcome [out] is an exception that
    [except Exception] catches, raised before any reply. *)
Definition failed (e : Env) (out : Result unit * Env) : Prop :=
  exists err,
    fst out = Raise err
    /\ exn_kind_of err <> CancelledError
    /\ sent (conn (snd out)) = sent (conn e)
    /\ closed (conn (snd out)) = closed (conn e)
    /\ dev_moves (device e) (device (snd out)).

(** The tokens of the request line the reader will deliver first; none
    when the line does not decode. *)
Definition request_parts (e : Env) : list string :=
  match decode (hd EmptyString (rd_lines (conn e))) with
  | Ok text => split_ws (strip text)
  | Raise _ => []
  end.

Definition is_cancel_request (parts : list string) : bool :=
  match parts with
  | method :: path :: _ => (String.eqb method "POST" && String.eqb path "/cancel")%bool
  | _ => false
  end.

(** The status codes a request can be answered with. *)
Definition codes_for (e : Env) : list Z :=
  if is_cancel_request (request_parts e) then [202; 400; 500] else [400; 404; 405; 500].

(** The condition [handle_post_melody] puts on [notes]: a list whose
    elements are all two-element lists. *)
Definition valid_notes (v : pyval) : bool :=
  match v with PList ns => forallb is_pair ns | _ => false end.

(** The body of the internal-error reply. *)
Definition internal_error (detail : string) : pyval :=
  PDict [("error"%string, PStr "internal"); ("detail"%string, PStr detail)].

(** The lines on which the header loop stops: end of stream and the blank
    line. *)
Definition ends_headers (line : string) : bool :=
  (is_empty line || String.eqb line crlf || String.eqb line lf)%bool.

(** A header line the loop reads and decodes. *)
Definition decodable_header (line : string) : Prop :=
  ends_headers line = false /\ utf8_check line = true.

(** The bytes a list of chunks holds, in order. *)
Definition concat_bytes (chunks : list string) : string :=
  fold_right String.append EmptyString chunks.

(** ** dashboard.py (runs on the coordinator) *)

(** [min(x, 10)] and [max(0, y)] as Python evaluates them: the first
    argument unless the second is strictly smaller, respectively larger. *)
Definition py_min_10 (x : Q) : Q := if Qle_bool x (inject_Z 10) then x else inject_Z 10.
Definition py_max_0 (y : Q) : Q := if Qle_bool y 0 then 0%Q else y.

(** [render_dashboard]: [int(max(0, min(light_level * 10, 10)))]. *)
Definition bar_length (light_level : Q) : Z :=
  trunc (py_max_0 (py_min_10 (rnd (light_level * inject_Z 10)))).

Inductive glyph := FullBlock | Dash.

(** [str * int]: no copy at all for a count that is not positive. *)
Definition py_repeat (g : glyph) (count : Z) : list glyph := repeat g (Z.to_nat count).

(** [render_dashboard]: the bar, a run of full blocks and a run of dashes. *)
Definition bar (light_level : Q) : list glyph :=
  py_repeat FullBlock (bar_length light_level)
  ++ py_repeat Dash (10 - bar_length light_level).

(** ** conductor.py (runs on the coordinator) *)

(** [play_melody_on_all], the loop body: a note with both keys is
    converted, any other is skipped; a failing conversion propagates. *)
Definition normalize_note (n : list (string * pyval)) : Result (option pyval) :=
  match dict_lookup "freq" n, dict_lookup "ms" n with
  | Some freq, Some ms =>
      rbind (py_int freq) (fun freq =>
      rbind (py_int ms) (fun ms =>
      rbind (py_float (match dict_lookup "duty" n with
                       | Some d => d
                       | None => PFloat (1 # 2)
                       end)) (fun duty =>
      Ok (Some (PDict [("freq"%string, PInt freq); ("ms"%string, PInt ms);
                       ("duty"%string, PFloat duty)])))))
  | _, _ => Ok None
  end.

Fixpoint normalize_notes (notes : list (list (string * pyval))) : Result (list pyval) :=
  match notes with
  | [] => Ok []
  | n :: rest =>
      rbind (normalize_note n) (fun o =>
      rbind (normalize_notes rest) (fun norm_rest =>
      Ok (match o with Some note => note :: norm_rest | None => norm_rest end)))
  end.

(** [play_melody_on_all]: the body posted to [/melody] on every device, or
    [None] when the function returns without sending. *)
Definition melody_broadcast (picos : list string) (notes : list (list (string * pyval)))
    (gap_ms : Z) : Result (option pyval) :=
  match picos, notes with
  | [], _ | _, [] => Ok None
  | _, _ =>
      rbind (normalize_notes notes) (fun norm_notes =>
      match norm_notes with
      | [] => Ok None
      | _ => Ok (Some (PDict [("notes"%string, PList norm_notes);
                              ("gap_ms"%string, PInt gap_ms)]))
      end)
  end.

(** ** More sample inputs *)

(** A decoder that rejects every text. *)
Definition decodes_nothing (s : string) : option pyval := None.

(** A header line with the byte 0xFF, which no UTF-8 text contains. *)
Definition bad_header : string := "X-Bad: " ++ String (ascii_of_nat 255) EmptyString.

(** A device on which a second tone has preempted the sounding one: task 0
    is cancelled and has not had its turn yet. *)
Definition preempted : Device := step (EvTone 880 100 (1 # 2)) playing.

(** A device whose only tone has run to completion. *)
Definition played : Device := step (EvTurn 0%nat) playing.

(** * Properties *)

Context {Hrnd : Rounding rnd}.

Lemma rnd_proper (x y : Q) : (x == y)%Q -> (rnd x == rnd y)%Q.
Proof.
  intros E. apply Qle_antisym; apply rnd_mono; rewrite E; apply Qle_refl.
Qed.

Lemma rnd_zero : (rnd 0 == 0)%Q.
Proof. apply (rnd_exact 0). simpl. lia. Qed.

Lemma rnd_one : (rnd 1 == 1)%Q.
Proof. apply (rnd_exact 1). simpl. lia. Qed.

Lemma trunc_integer (q : Q) (z : Z) : (q == inject_Z z)%Q -> trunc q = z.
Proof.
  unfold Qeq, trunc. simpl. intros E. rewrite Z.mul_1_r in E. rewrite E.
  apply Z.quot_mul. discriminate.
Qed.

(** C8.  For every duty and every frequency [f <= 0], [start_tone f duty]
    does to the PWM exactly what [stop_tone] does: the duty register is set
    to zero and the frequency is left as it was.  [stop_tone] never raises,
    whatever the state of the PWM, and calling it twice is the same as
    calling it once. *)
Theorem start_tone_nonpositive_is_stop (f : Z) (d : Q) (p : PWM) :
  f <= 0 ->
  start_tone (PInt f) d p = stop_tone p
  /\ stop_tone p = (Ok tt, {| pwm_freq := pwm_freq p; pwm_duty := 0 |})
  /\ (stop_tone ;; stop_tone)%monad p = stop_tone p.
Proof.
  intros Hf. repeat split.
  unfold start_tone, bind, lift_result. simpl.
  destruct (Z.leb_spec f 0); [reflexivity | lia].
Qed.

(** C5.  For every integer reading [r], [normalize_raw r RAW_MIN RAW_MAX]
    returns a value in [0, 1]; the value is 0 for every [r <= RAW_MIN] (in
    particular at [RAW_MIN]) and 1 for every [r >= RAW_MAX] (in particular
    at [RAW_MAX]): readings outside the calibration range are clamped, not
    extrapolated. *)
Theorem normalize_raw_bounds (r : Z) :
  exists q : Q,
    normalize_raw r RAW_MIN RAW_MAX = Ok q
    /\ (0 <= q)%Q /\ (q <= 1)%Q
    /\ (r <= RAW_MIN -> (q == 0)%Q)
    /\ (RAW_MAX <= r -> (q == 1)%Q).
Proof.
  unfold normalize_raw, truediv, RAW_MIN, RAW_MAX.
  change (65338 - 600 =? 0) with false. cbv iota.
  set (c := if r <? 600 then 600 else if r >? 65338 then 65338 else r).
  assert (Hc : 600 <= c <= 65338).
  { subst c. destruct (Z.ltb_spec r 600); [lia|].
    destruct (Z.gtb_spec r 65338); lia. }
  assert (Hlo : c = 600 <-> r <= 600).
  { subst c. destruct (Z.ltb_spec r 600); [lia|].
    destruct (Z.gtb_spec r 65338); lia. }
  assert (Hhi : c = 65338 <-> 65338 <= r).
  { subst c. destruct (Z.ltb_spec r 600); [lia|].
    destruct (Z.gtb_spec r 65338); lia. }
  clearbody c.
  eexists; split; [reflexivity|].
  assert (H0 : (0 <= inject_Z (c - 600) / inject_Z (65338 - 600))%Q).
  { apply Qle_shift_div_l; [reflexivity|]. rewrite Qmult_0_l.
    change 0%Q with (inject_Z 0). rewrite <- Zle_Qle. lia. }
  assert (H1 : (inject_Z (c - 600) / inject_Z (65338 - 600) <= 1)%Q).
  { apply Qle_shift_div_r; [reflexivity|]. rewrite Qmult_1_l.
    rewrite <- Zle_Qle. lia. }
  repeat split.
  - rewrite <- rnd_zero. now apply rnd_mono.
  - rewrite <- rnd_one. now apply rnd_mono.
  - intros Hr. apply Hlo in Hr. subst c. rewrite <- rnd_zero. apply rnd_proper. reflexivity.
  - intros Hr. apply Hhi in Hr. subst c. rewrite <- rnd_one. apply rnd_proper. reflexivity.
Qed.

Lemma interruptible_bind {A B} (c : Co A) (f : A -> Co B) :
  interruptible c -> (forall a, interruptible (f a)) -> interruptible (co_bind c f).
Proof.
  intros Hc Hf. induction c as [a|e|h k IH|ms k IH]; simpl in *; auto.
  destruct Hc as [Hw Hc]. split; [auto|]. now rewrite Hc.
Qed.

Lemma interruptible_hw (h : M PWM unit) : interruptible (hw h).
Proof. intros [|]; exact I. Qed.

Lemma interruptible_sleep_ms (ms : pyval) : interruptible (sleep_ms ms).
Proof. destruct ms; simpl; auto. Qed.

Lemma interruptible_for {X} (xs : list X) (body : X -> Co unit) :
  (forall x, interruptible (body x)) -> interruptible (co_for xs body).
Proof.
  intros Hb. induction xs as [|x xs IH]; simpl; [exact I|].
  apply interruptible_bind; auto.
Qed.

Lemma interruptible_unpack_note (note : pyval) : interruptible (unpack_note note).
Proof.
  destruct note as [| | | | |l|kvs]; simpl; auto.
  - destruct l as [|? [|? [|? ?]]]; exact I.
  - destruct (dict_lookup "freq"%string kvs); [|exact I].
    destruct (dict_lookup "ms"%string kvs); exact I.
Qed.

Lemma guarded_try_finally (body : Co unit) :
  interruptible body -> forall p, guarded (co_try_finally body (hw stop_tone)) p.
Proof.
  induction body as [a|e|h k IH|ms k IH]; simpl; intros Hb p.
  - reflexivity.
  - reflexivity.
  - apply IH, Hb.
  - destruct Hb as [Hw Hc]. split.
    + intros p'. now apply IH.
    + rewrite Hc. intros p'. eexists. split; reflexivity.
Qed.

Lemma guarded_play_note (freq ms : Z) (duty : Q) (p : PWM) :
  guarded (_play_note_async freq ms duty) p.
Proof.
  apply guarded_try_finally. apply interruptible_bind.
  - apply interruptible_hw.
  - intros _. apply interruptible_sleep_ms.
Qed.

Lemma guarded_play_melody (notes : list pyval) (gap_ms : Z) (duty : Q) (p : PWM) :
  guarded (_play_melody_async notes gap_ms duty) p.
Proof.
  apply guarded_try_finally. apply interruptible_for. intros note.
  apply interruptible_bind; [apply interruptible_unpack_note|]. intros fm.
  apply interruptible_bind; [apply interruptible_hw|]. intros _.
  apply interruptible_bind; [apply interruptible_sleep_ms|]. intros _.
  apply interruptible_bind; [apply interruptible_hw|]. intros _.
  apply interruptible_sleep_ms.
Qed.

(** What a run of a guarded coroutine ends in. *)
Lemma run_guarded (c : Co unit) (p : PWM) :
  guarded c p ->
  match run c p with
  | (Finished _, p') => silent p'
  | (Suspended _ k, _) => (forall p', guarded (k Wake) p') /\ cleans (k Cancel)
  | (Created _, _) => False
  end.
Proof.
  revert p. induction c as [a|e|h k IH|ms k IH]; simpl; intros p Hg; auto.
  destruct (h p) as [r p1]. simpl in Hg. now apply IH.
Qed.

Lemma running_spec (t : Task) :
  running t = true <-> done t = false /\ t_cancel t = false.
Proof.
  unfold running, lifecycle, done.
  destruct (t_state t) as [c|ms k|[u|e]]; destruct (t_cancel t);
    try destruct (is_cancelled_error e); simpl; intuition congruence.
Qed.

Lemma resume_spec (t : Task) (p : PWM) :
  task_ok t ->
  task_ok (fst (resume t p))
  /\ (running (fst (resume t p)) = true -> running t = true)
  /\ (running t = true -> running (fst (resume t p)) = false -> silent (snd (resume t p)))
  /\ (running t = false -> silent (snd (resume t p)) \/ snd (resume t p) = p)
  /\ (t_cancel t = false -> t_cancel (fst (resume t p)) = false).
Proof.
  intros Hok. unfold resume, task_ok in *.
  destruct t as [st cf]. simpl in *. destruct st as [c|ms k|r].
  - destruct cf.
    + simpl. repeat split; auto; discriminate.
    + pose proof (run_guarded c p (Hok p)) as Hrun.
      destruct (run c p) as [st' p']. simpl.
      destruct st' as [c'|ms' k'|r']; [contradiction| |]; unfold running, lifecycle; simpl;
        repeat split; auto; try discriminate; tauto.
  - destruct Hok as [Hw Hc]. destruct cf.
    + destruct (Hc p) as (p' & Hrun & Hs). rewrite Hrun. simpl.
      repeat split; auto; discriminate.
    + pose proof (run_guarded (k Wake) p (Hw p)) as Hrun.
      destruct (run (k Wake) p) as [st' p']. simpl.
      destruct st' as [c'|ms' k'|r']; [contradiction| |]; unfold running, lifecycle; simpl;
        repeat split; auto; try discriminate; tauto.
  - simpl. repeat split; auto. congruence.
Qed.

(** Delivery of a cancellation into a suspended task runs the [finally]. *)
Lemma resume_cancel_suspended (t : Task) (p : PWM) ms k :
  task_ok t -> t_state t = Suspended ms k -> t_cancel t = true ->
  lifecycle (fst (resume t p)) = Canceled /\ done (fst (resume t p)) = true
  /\ silent (snd (resume t p)).
Proof.
  intros Hok Hst Hc. unfold resume, task_ok in *. rewrite Hst in *. rewrite Hc.
  destruct Hok as [_ Hcl]. destruct (Hcl p) as (p' & Hrun & Hs). rewrite Hrun.
  simpl. auto.
Qed.


Lemma cancel_current_playback_eq (d : Device) :
  cancel_current_playback d =
  (Ok tt,
   match _current_task d with
   | Some h =>
       match tasks d !! h with
       | Some t =>
           if done t then with_current None d
           else with_current None
                  (with_pwm (set_duty 0 (pwm d))
                     (with_tasks (<[h := mark_cancelled t]> (tasks d)) d))
       | None => with_current None d
       end
   | None => with_current None d
   end).
Proof.
  unfold cancel_current_playback, bind, get, task_done, task_cancel, modify, ret.
  destruct (_current_task d) as [h|]; [|reflexivity].
  destruct (tasks d !! h) as [t|] eqn:Ht; [|reflexivity].
  destruct (done t) eqn:Hd; [reflexivity|].
  rewrite Ht, Hd. reflexivity.
Qed.

Lemma inv_boot (sample : Z) : inv (boot sample).
Proof.
  split; simpl.
  - intros h t Hl. now rewrite lookup_nil in Hl.
  - intros h t Hl. now rewrite lookup_nil in Hl.
  - discriminate.
  - intros _. reflexivity.
Qed.

Lemma inv_no_running_if_idle (d : Device) :
  inv d ->
  (forall h t, _current_task d = Some h -> tasks d !! h = Some t -> done t = true) ->
  forall h t, tasks d !! h = Some t -> running t = false.
Proof.
  intros Hi Hidle h t Hl. destruct (running t) eqn:Hr; [|reflexivity].
  pose proof (inv_slot d Hi h t Hl Hr) as Hc.
  apply running_spec in Hr. destruct Hr as [Hd _].
  rewrite (Hidle h t Hc Hl) in Hd. discriminate.
Qed.

Lemma inv_cancel (d : Device) :
  inv d ->
  let d' := snd (cancel_current_playback d) in
  inv d' /\ silent (pwm d') /\ _current_task d' = None
  /\ (forall h t, tasks d' !! h = Some t -> running t = false).
Proof.
  intros Hi d'. subst d'. rewrite cancel_current_playback_eq. simpl.
  assert (Hidle : forall d0, inv d0 -> tasks d0 = tasks d -> pwm d0 = pwm d ->
            (forall h t, tasks d !! h = Some t -> running t = false) ->
            let d' := with_current None d0 in
            inv d' /\ silent (pwm d') /\ _current_task d' = None
            /\ (forall h t, tasks d' !! h = Some t -> running t = false)).
  { intros d0 Hi0 Ht Hp Hnr. simpl. rewrite Ht, Hp.
    repeat split; simpl; try rewrite Ht; try rewrite Hp; auto.
    - intros h t Hl. apply (inv_tasks d Hi h t Hl).
    - intros h t Hl Hr. rewrite (Hnr h t Hl) in Hr. discriminate.
    - discriminate.
    - intros _. apply (inv_silent d Hi Hnr).
    - apply (inv_silent d Hi Hnr). }
  destruct (_current_task d) as [h|] eqn:Hc.
  - destruct (tasks d !! h) as [t|] eqn:Ht.
    + destruct (done t) eqn:Hd.
      * apply (Hidle d Hi eq_refl eq_refl). apply inv_no_running_if_idle; auto.
        intros h' t' Hc' Hl'. rewrite Hc in Hc'. injection Hc' as <-. congruence.
      * assert (Hnr : forall h' t', <[h := mark_cancelled t]> (tasks d) !! h' = Some t' ->
                        running t' = false).
        { intros h' t' Hl'. destruct (decide (h = h')) as [<-|Hne].
          - rewrite list_lookup_insert_eq in Hl' by (eapply lookup_lt_Some; eauto).
            injection Hl' as <-. unfold running, lifecycle, mark_cancelled. simpl.
            unfold done in Hd. destruct (t_state t); [reflexivity | reflexivity | discriminate].
          - rewrite list_lookup_insert_ne in Hl' by assumption.
            destruct (running t') eqn:Hr; [|reflexivity].
            pose proof (inv_slot d Hi h' t' Hl' Hr). congruence. }
        repeat split; simpl; auto.
        -- intros h' t' Hl'. destruct (decide (h = h')) as [<-|Hne].
           ++ rewrite list_lookup_insert_eq in Hl' by (eapply lookup_lt_Some; eauto).
              injection Hl' as <-. apply (inv_tasks d Hi h t Ht).
           ++ rewrite list_lookup_insert_ne in Hl' by assumption.
              apply (inv_tasks d Hi h' t' Hl').
        -- intros h' t' Hl' Hr. rewrite (Hnr h' t' Hl') in Hr. discriminate.
        -- discriminate.
    + apply (Hidle d Hi eq_refl eq_refl). apply inv_no_running_if_idle; auto.
      intros h' t' Hc' Hl'. rewrite Hc in Hc'. injection Hc' as <-. congruence.
  - apply (Hidle d Hi eq_refl eq_refl). apply inv_no_running_if_idle; auto.
    intros h' t' Hc'. rewrite Hc in Hc'. discriminate.
Qed.

Lemma play_tone_for_ms_eq (freq ms : Z) (duty : Q) (d : Device) :
  play_tone_for_ms freq ms duty d =
  (Ok tt, install (_play_note_async freq ms duty) (snd (cancel_current_playback d))).
Proof.
  unfold play_tone_for_ms, bind. rewrite cancel_current_playback_eq. reflexivity.
Qed.

Lemma play_melody_eq (notes : list pyval) (gap_ms : Z) (duty : Q) (d : Device) :
  play_melody notes gap_ms duty d =
  (Ok (Z.of_nat (length notes)),
   install (_play_melody_async notes gap_ms duty) (snd (cancel_current_playback d))).
Proof.
  unfold play_melody, bind. rewrite cancel_current_playback_eq. reflexivity.
Qed.

Lemma inv_install (c : Co unit) (d : Device) :
  inv d -> (forall p, guarded c p) ->
  (forall h t, tasks d !! h = Some t -> running t = false) ->
  inv (install c d).
Proof.
  intros Hi Hg Hnr. split; simpl.
  - intros h t Hl. apply lookup_app_Some in Hl as [Hl|[_ Hl]].
    + apply (inv_tasks d Hi h t Hl).
    + destruct (h - length (tasks d))%nat; simpl in Hl; [|now rewrite lookup_nil in Hl].
      injection Hl as <-. exact Hg.
  - intros h t Hl Hr. apply lookup_app_Some in Hl as [Hl|[Hge Hl]].
    + rewrite (Hnr h t Hl) in Hr. discriminate.
    + destruct (h - length (tasks d))%nat eqn:E; simpl in Hl; [|now rewrite lookup_nil in Hl].
      f_equal. lia.
  - intros h t Hc Hl. injection Hc as <-.
    rewrite list_lookup_middle in Hl by reflexivity. now injection Hl as <-.
  - intros Hall. specialize (Hall (length (tasks d)) (new_task c)).
    rewrite list_lookup_middle in Hall by reflexivity. specialize (Hall eq_refl).
    discriminate.
Qed.

Lemma loop_turn_eq (h : nat) (d : Device) (t : Task) :
  tasks d !! h = Some t ->
  loop_turn h d =
  with_pwm (snd (resume t (pwm d))) (with_tasks (<[h := fst (resume t (pwm d))]> (tasks d)) d).
Proof.
  intros Hl. unfold loop_turn. rewrite Hl. now destruct (resume t (pwm d)).
Qed.

Lemma inv_loop_turn (h : nat) (d : Device) : inv d -> inv (loop_turn h d).
Proof.
  intros Hi. destruct (tasks d !! h) as [t|] eqn:Ht;
    [|unfold loop_turn; now rewrite Ht].
  rewrite (loop_turn_eq h d t Ht).
  destruct (resume_spec t (pwm d) (inv_tasks d Hi h t Ht)) as (R1 & R2 & R3 & R4 & R5).
  pose proof (lookup_lt_Some _ _ _ Ht) as Hlt.
  split; simpl.
  - intros h' t' Hl. destruct (decide (h = h')) as [<-|Hne].
    + rewrite list_lookup_insert_eq in Hl by assumption. now injection Hl as <-.
    + rewrite list_lookup_insert_ne in Hl by assumption. apply (inv_tasks d Hi h' t' Hl).
  - intros h' t' Hl Hr. destruct (decide (h = h')) as [<-|Hne].
    + rewrite list_lookup_insert_eq in Hl by assumption. injection Hl as <-.
      apply (inv_slot d Hi h t Ht). auto.
    + rewrite list_lookup_insert_ne in Hl by assumption. apply (inv_slot d Hi h' t' Hl Hr).
  - intros h' t' Hc Hl. destruct (decide (h = h')) as [<-|Hne].
    + rewrite list_lookup_insert_eq in Hl by assumption. injection Hl as <-.
      apply R5. apply (inv_fresh d Hi h t Hc Ht).
    + rewrite list_lookup_insert_ne in Hl by assumption. apply (inv_fresh d Hi h' t' Hc Hl).
  - intros Hall.
    assert (Hnew : running (fst (resume t (pwm d))) = false).
    { apply (Hall h). now rewrite list_lookup_insert_eq. }
    destruct (running t) eqn:Hr; [now apply R3|].
    assert (Hs : silent (pwm d)).
    { apply (inv_silent d Hi). intros h' t' Hl. destruct (decide (h = h')) as [<-|Hne].
      - congruence.
      - apply (Hall h'). now rewrite list_lookup_insert_ne. }
    destruct (R4 eq_refl) as [Hq|Hq]; [exact Hq|now rewrite Hq].
Qed.

Lemma inv_step (e : event) (d : Device) : inv d -> inv (step e d).
Proof.
  intros Hi. destruct e as [freq ms duty|notes gap_ms duty| |h|raw]; simpl.
  - rewrite play_tone_for_ms_eq. simpl.
    destruct (inv_cancel d Hi) as (Hi' & _ & _ & Hnr).
    apply inv_install; auto. intros p. apply guarded_play_note.
  - rewrite play_melody_eq. simpl.
    destruct (inv_cancel d Hi) as (Hi' & _ & _ & Hnr).
    apply inv_install; auto. intros p. apply guarded_play_melody.
  - apply (inv_cancel d Hi).
  - now apply inv_loop_turn.
  - destruct Hi as [H1 H2 H3 H4]. split; simpl; auto.
Qed.

Lemma reachable_inv (d : Device) : reachable d -> inv d.
Proof.
  induction 1 as [sample|d e _ IH]; [apply inv_boot | now apply inv_step].
Qed.

Lemma running_lifecycle (t : Task) : running t = true <-> lifecycle t = Running.
Proof. unfold running. destruct (lifecycle t); intuition congruence. Qed.

Lemma not_running_lifecycle (t : Task) : running t = false <-> lifecycle t <> Running.
Proof. unfold running. destruct (lifecycle t); intuition congruence. Qed.

Lemma lifecycle_mark_cancelled (t : Task) :
  done t = false -> lifecycle (mark_cancelled t) = Canceled.
Proof.
  unfold done, lifecycle, mark_cancelled. simpl.
  destruct (t_state t); [reflexivity | reflexivity | discriminate].
Qed.

(** C1.  Single flight.  In every reachable state of the device at most one
    task is [Running], and that task is the one held in [_current_task].
    Cancelling the current playback moves the running task, if any, to
    [Canceled] and leaves no task running and the buzzer silent; and
    [play_tone_for_ms] and [play_melody] do exactly that first, and then
    append the new task, created and not cancelled, and store its handle in
    the slot, without touching the PWM again.

    [Canceled] is entered when [Task.cancel()] is called: the event loop
    delivers the [CancelledError] on the task's next turn, and until then
    [done()] is still false for it. *)
Theorem single_flight (d : Device) :
  reachable d ->
  (forall i j ti tj,
      tasks d !! i = Some ti -> tasks d !! j = Some tj ->
      lifecycle ti = Running -> lifecycle tj = Running -> i = j)
  /\ (forall i ti,
      tasks d !! i = Some ti -> lifecycle ti = Running -> _current_task d = Some i)
  /\ (let d1 := snd (cancel_current_playback d) in
      (forall i ti, tasks d !! i = Some ti -> lifecycle ti = Running ->
         exists ti', tasks d1 !! i = Some ti' /\ lifecycle ti' = Canceled)
      /\ (forall i ti, tasks d1 !! i = Some ti -> lifecycle ti <> Running)
      /\ silent (pwm d1)
      /\ (forall freq ms duty,
            exists d2,
              play_tone_for_ms freq ms duty d = (Ok tt, d2)
              /\ tasks d2 = tasks d1 ++ [new_task (_play_note_async freq ms duty)]
              /\ _current_task d2 = Some (length (tasks d1))
              /\ pwm d2 = pwm d1)
      /\ (forall notes gap_ms duty,
            exists d2,
              play_melody notes gap_ms duty d = (Ok (Z.of_nat (length notes)), d2)
              /\ tasks d2 = tasks d1 ++ [new_task (_play_melody_async notes gap_ms duty)]
              /\ _current_task d2 = Some (length (tasks d1))
              /\ pwm d2 = pwm d1)).
Proof.
  intros Hr. pose proof (reachable_inv d Hr) as Hi.
  assert (Hslot : forall i ti,
             tasks d !! i = Some ti -> lifecycle ti = Running -> _current_task d = Some i).
  { intros i ti Hl Hrun. apply (inv_slot d Hi i ti Hl). now apply running_lifecycle. }
  split; [|split; [exact Hslot|]].
  - intros i j ti tj Hi' Hj Hri Hrj.
    pose proof (Hslot i ti Hi' Hri). pose proof (Hslot j tj Hj Hrj). congruence.
  - destruct (inv_cancel d Hi) as (_ & Hsil & _ & Hnr). cbv zeta.
    split; [|split; [|split; [exact Hsil|split]]].
    + intros i ti Hl Hrun. pose proof (Hslot i ti Hl Hrun) as Hc.
      apply running_lifecycle, running_spec in Hrun. destruct Hrun as [Hd _].
      rewrite cancel_current_playback_eq. simpl. rewrite Hc, Hl, Hd. simpl.
      exists (mark_cancelled ti). split.
      * apply list_lookup_insert_eq. eapply lookup_lt_Some; eauto.
      * now apply lifecycle_mark_cancelled.
    + intros i ti Hl. apply not_running_lifecycle. eapply Hnr; eauto.
    + intros freq ms duty. eexists. split; [apply play_tone_for_ms_eq|]. auto.
    + intros notes gap_ms duty. eexists. split; [apply play_melody_eq|]. auto.
Qed.

(** C3.  Cleanup guarantee.  From a reachable state, whatever makes a task
    leave [Running] (its own turn ending in completion or in an error, or a
    cancellation by [cancel_current_playback], [play_tone_for_ms] or
    [play_melody]) leaves the duty register at zero.  And when the event
    loop delivers a pending cancellation into a task suspended in
    [sleep_ms], the task's [finally] block runs: the task ends [Canceled]
    and the duty register is zero. *)
Theorem cleanup_guarantee (d : Device) :
  reachable d ->
  (forall e h t t',
      tasks d !! h = Some t -> lifecycle t = Running ->
      tasks (step e d) !! h = Some t' -> lifecycle t' <> Running ->
      silent (pwm (step e d)))
  /\ (forall h t ms k,
      tasks d !! h = Some t -> t_state t = Suspended ms k -> t_cancel t = true ->
      exists t',
        tasks (loop_turn h d) !! h = Some t'
        /\ done t' = true /\ lifecycle t' = Canceled
        /\ silent (pwm (loop_turn h d))).
Proof.
  intros Hr. pose proof (reachable_inv d Hr) as Hi. split.
  - intros e h t t' Hl Hrun Hl' Hnot.
    apply running_lifecycle in Hrun. apply not_running_lifecycle in Hnot.
    pose proof (inv_slot d Hi h t Hl Hrun) as Hc.
    pose proof (proj1 (running_spec t) Hrun) as [Hd _].
    assert (Hcancel : pwm (snd (cancel_current_playback d)) = set_duty 0 (pwm d)).
    { rewrite cancel_current_playback_eq. simpl. now rewrite Hc, Hl, Hd. }
    destruct e as [freq ms duty|notes gap_ms duty| |h'|raw]; simpl in *.
    + rewrite play_tone_for_ms_eq. simpl. now rewrite Hcancel.
    + rewrite play_melody_eq. simpl. now rewrite Hcancel.
    + now rewrite Hcancel.
    + destruct (decide (h' = h)) as [->|Hne].
      * rewrite (loop_turn_eq h d t Hl) in *. simpl in *.
        rewrite list_lookup_insert_eq in Hl' by (eapply lookup_lt_Some; eauto).
        injection Hl' as <-.
        now apply (resume_spec t (pwm d) (inv_tasks d Hi h t Hl)).
      * destruct (tasks d !! h') as [u|] eqn:Hu.
        -- rewrite (loop_turn_eq h' d u Hu) in Hl'. simpl in Hl'.
           rewrite list_lookup_insert_ne in Hl' by assumption. congruence.
        -- unfold loop_turn in Hl'. rewrite Hu in Hl'. congruence.
    + congruence.
  - intros h t ms k Hl Hst Hc.
    destruct (resume_cancel_suspended t (pwm d) ms k (inv_tasks d Hi h t Hl) Hst Hc)
      as (Hlife & Hdone & Hsil).
    exists (fst (resume t (pwm d))). rewrite (loop_turn_eq h d t Hl). simpl.
    repeat split; auto.
    apply list_lookup_insert_eq. eapply lookup_lt_Some; eauto.
Qed.

(** C4.  In every reachable state [cancel_current_playback] returns
    normally and leaves the buzzer silent.  When no task is running it
    touches neither the tasks nor the PWM: all it does is clear the slot,
    and with an empty slot the state is unchanged.  Calling it a second time
    changes nothing more. *)
Theorem cancel_current_playback_silent_idempotent (d : Device) :
  reachable d ->
  let r := cancel_current_playback d in
  fst r = Ok tt
  /\ silent (pwm (snd r))
  /\ ((forall h t, tasks d !! h = Some t -> lifecycle t <> Running) ->
      snd r = with_current None d)
  /\ (_current_task d = None -> snd r = d)
  /\ cancel_current_playback (snd r) = r.
Proof.
  intros Hr. pose proof (reachable_inv d Hr) as Hi. cbv zeta.
  destruct (inv_cancel d Hi) as (_ & Hsil & Hnone & _).
  split; [|split; [exact Hsil|split; [|split]]].
  - now rewrite cancel_current_playback_eq.
  - intros Hnr. rewrite cancel_current_playback_eq. simpl.
    destruct (_current_task d) as [h|] eqn:Hc; [|reflexivity].
    destruct (tasks d !! h) as [t|] eqn:Hl; [|reflexivity].
    destruct (done t) eqn:Hd; [reflexivity|].
    exfalso. apply (Hnr h t Hl). apply running_lifecycle.
    apply running_spec. split; [exact Hd|].
    apply (inv_fresh d Hi h t); auto.
  - intros Hc. rewrite cancel_current_playback_eq. simpl. rewrite Hc.
    destruct d; simpl in *. now subst.
  - rewrite (cancel_current_playback_eq (snd (cancel_current_playback d))).
    rewrite Hnone.
    rewrite cancel_current_playback_eq at 2. simpl. f_equal.
    rewrite cancel_current_playback_eq. simpl.
    destruct (_current_task d) as [h|]; [|reflexivity].
    destruct (tasks d !! h) as [t|]; [|reflexivity].
    destruct (done t); reflexivity.
Qed.

(** ** The request router *)

Local Open Scope string_scope.

Lemma py_int_error_kind (v : pyval) (e : exn) :
  py_int v = Raise e -> exn_kind_of e <> CancelledError.
Proof.
  destruct v; simpl; try discriminate; try (intros [= <-]; discriminate).
  destruct (int_of_str s); [discriminate|]. intros [= <-]. discriminate.
Qed.

Lemma request_line_not_empty (req : string) (x : string) (xs : list string) :
  split_ws (strip req) = x :: xs -> is_empty req = false.
Proof. destruct req; [discriminate | reflexivity]. Qed.

Lemma decode_ok (b : string) : utf8_check b = true -> decode b = Ok b.
Proof. intros H. unfold decode. now rewrite H. Qed.

Lemma decode_error (b : string) :
  utf8_check b = false -> exists err, decode b = Raise err /\ exn_kind_of err = UnicodeError.
Proof. intros H. unfold decode. rewrite H. now eexists. Qed.

Lemma read_headers_error_kind (lines : list string) headers err after :
  read_headers_from lines headers = (Raise err, after) -> exn_kind_of err = UnicodeError.
Proof.
  revert headers. induction lines as [|line rest IH]; intros headers; simpl; [discriminate|].
  destruct (is_empty line || String.eqb line crlf || String.eqb line lf)%bool; [discriminate|].
  unfold decode. destruct (utf8_check line).
  - destruct (split_colon line) as [|k [|v [|x xs]]]; apply IH.
  - now intros [= <- _].
Qed.

(** The request line and the header lines of a well-formed request. *)
Lemma serve_request_headers (e : Env) req more method path rest hres after :
  rd_lines (conn e) = req :: more ->
  utf8_check req = true ->
  split_ws (strip req) = method :: path :: rest ->
  read_headers_from more [] = (hres, after) ->
  serve_request e =
  match hres with
  | Ok headers =>
      (if String.eqb method "GET" then route_get path
       else if String.eqb method "POST" then route_post path headers
       else x <- call_async (send_json 405 (PDict [("error", PStr "Method Not Allowed")])) ;;
            await x)
        (consumed after (rd_chunks (conn e)) e)
  | Raise err => (Raise err, consumed after (rd_chunks (conn e)) e)
  end.
Proof.
  intros Hl Hu Hreq Hh.
  unfold serve_request, bind, on_conn, zoom, readline. rewrite Hl.
  rewrite (request_line_not_empty req _ _ Hreq).
  unfold lift_result. rewrite (decode_ok req Hu), Hreq.
  unfold read_headers. cbn [conn with_conn rd_lines]. rewrite Hh.
  destruct hres; reflexivity.
Qed.

Lemma serve_request_get (e : Env) req more path rest headers after :
  rd_lines (conn e) = req :: more ->
  utf8_check req = true ->
  split_ws (strip req) = "GET" :: path :: rest ->
  read_headers_from more [] = (Ok headers, after) ->
  serve_request e = route_get path (consumed after (rd_chunks (conn e)) e).
Proof.
  intros Hl Hu Hreq Hh.
  now rewrite (serve_request_headers e req more _ path rest _ after Hl Hu Hreq Hh).
Qed.

Lemma serve_request_post (e : Env) req more path rest headers after clen body_bytes chunks :
  rd_lines (conn e) = req :: more ->
  utf8_check req = true ->
  split_ws (strip req) = "POST" :: path :: rest ->
  read_headers_from more [] = (Ok headers, after) ->
  content_length headers = Ok clen ->
  read_body_from clen EmptyString (rd_chunks (conn e)) = (body_bytes, chunks) ->
  serve_request e =
  match decode_body body_bytes with
  | Some body => dispatch_post path body (consumed after chunks e)
  | None =>
      (x <- call_async (send_json 400 (PDict [("error", PStr "Invalid JSON")])) ;; await x)
        (consumed after chunks e)
  end.
Proof.
  intros Hl Hu Hreq Hh Hc Hb.
  rewrite (serve_request_headers e req more _ path rest _ after Hl Hu Hreq Hh).
  cbn [String.eqb Ascii.eqb Bool.eqb].
  unfold route_post, bind, lift_result. rewrite Hc.
  unfold on_conn, zoom, read_body, consumed. cbn [conn with_conn rd_chunks]. rewrite Hb.
  cbn [conn with_conn].
  destruct (decode_body body_bytes); reflexivity.
Qed.

Lemma handle_client_get (e : Env) req more path rest headers after :
  rd_lines (conn e) = req :: more ->
  utf8_check req = true ->
  split_ws (strip req) = "GET" :: path :: rest ->
  read_headers_from more [] = (Ok headers, after) ->
  handle_client e = guard_connection (route_get path) (consumed after (rd_chunks (conn e)) e).
Proof.
  intros Hl Hu Hreq Hh. unfold handle_client, guard_connection, try_finally, try_except.
  now rewrite (serve_request_get e req more path rest headers after Hl Hu Hreq Hh).
Qed.

(** A header line that does not decode: the internal-error reply, whatever
    the method and the path. *)
Lemma handle_client_bad_header (e : Env) req more method path rest err after :
  rd_lines (conn e) = req :: more ->
  utf8_check req = true ->
  split_ws (strip req) = method :: path :: rest ->
  read_headers_from more [] = (Raise err, after) ->
  handle_client e =
  (Ok tt, replied (reply 500 (PDict [("error", PStr "internal"); ("detail", PStr (exn_msg err))]))
            (consumed after (rd_chunks (conn e)) e)).
Proof.
  intros Hl Hu Hreq Hh. unfold handle_client, guard_connection, try_finally, try_except.
  rewrite (serve_request_headers e req more method path rest _ after Hl Hu Hreq Hh).
  now rewrite (read_headers_error_kind _ _ _ _ Hh).
Qed.

Lemma handle_client_post (e : Env) req more path rest headers after clen body_bytes chunks body :
  rd_lines (conn e) = req :: more ->
  utf8_check req = true ->
  split_ws (strip req) = "POST" :: path :: rest ->
  read_headers_from more [] = (Ok headers, after) ->
  content_length headers = Ok clen ->
  read_body_from clen EmptyString (rd_chunks (conn e)) = (body_bytes, chunks) ->
  decode_body body_bytes = Some body ->
  handle_client e = guard_connection (dispatch_post path body) (consumed after chunks e).
Proof.
  intros Hl Hu Hreq Hh Hc Hb Hd. unfold handle_client, guard_connection, try_finally, try_except.
  rewrite (serve_request_post e req more path rest headers after clen body_bytes chunks
             Hl Hu Hreq Hh Hc Hb), Hd.
  reflexivity.
Qed.

Lemma sensor_payload_raises (d : Device) :
  sensor_payload d =
  (Raise (Exn TypeError "missing required positional argument: min_in"), d).
Proof. reflexivity. Qed.

(** C2.  Every [GET /sensor] request is answered with status 500 and the
    body [{"error": "internal", "detail": ...}], never with 200, whatever
    its header lines, those that do not decode included:
    [sensor_payload] calls [normalize_raw] with one argument where three
    are required, the [TypeError] leaves [handle_get_sensor], and
    [handle_client] turns it into the internal-error reply. *)
Theorem get_sensor_replies_500 (e : Env) req more rest hres after :
  rd_lines (conn e) = req :: more ->
  utf8_check req = true ->
  split_ws (strip req) = "GET" :: "/sensor" :: rest ->
  read_headers_from more [] = (hres, after) ->
  (exists err, fst (sensor_payload (device e)) = Raise err /\ exn_kind_of err = TypeError)
  /\ (exists detail,
        handle_client e =
        (Ok tt,
         replied (reply 500 (PDict [("error", PStr "internal"); ("detail", PStr detail)]))
           (consumed after (rd_chunks (conn e)) e))).
Proof.
  intros Hl Hu Hreq Hh. split.
  - eexists. split; reflexivity.
  - destruct hres as [headers|err].
    + eexists. rewrite (handle_client_get e req more _ rest headers after Hl Hu Hreq Hh).
      reflexivity.
    + eexists. apply (handle_client_bad_header e req more _ _ rest err after Hl Hu Hreq Hh).
Qed.

Lemma tone_params_tone_body (freq ms : Z) (duty : Q) :
  tone_params (tone_body freq ms duty) = Ok (freq, ms, duty).
Proof. reflexivity. Qed.

Lemma handle_post_tone_accepted (body : pyval) (freq ms : Z) (duty : Q) (e : Env) :
  tone_params body = Ok (freq, ms, duty) ->
  handle_post_tone body e =
  (Raise (Exn TypeError "object isn't awaitable"),
   with_device (snd (play_tone_for_ms freq ms duty (device e))) e).
Proof.
  intros Hp. unfold handle_post_tone. rewrite Hp.
  unfold call_def, on_device, zoom, bind, ret. rewrite play_tone_for_ms_eq. reflexivity.
Qed.

(** C6.  [POST /tone] with the body [{"freq": 440, "ms": 200, "duty": 0.5}]
    starts the tone and is then answered with status 500 and the body
    [{"error": "internal", "detail": ...}], not with 202: the handler
    awaits the [None] that [play_tone_for_ms] returned, which raises
    [TypeError] before the acknowledgement is sent. *)
Theorem post_tone_replies_500 (e : Env) req more rest headers after clen body_bytes chunks :
  rd_lines (conn e) = req :: more ->
  utf8_check req = true ->
  split_ws (strip req) = "POST" :: "/tone" :: rest ->
  read_headers_from more [] = (Ok headers, after) ->
  content_length headers = Ok clen ->
  read_body_from clen EmptyString (rd_chunks (conn e)) = (body_bytes, chunks) ->
  decode_body body_bytes = Some (tone_body 440 200 (1 # 2)) ->
  exists detail,
    handle_client e =
    (Ok tt,
     replied (reply 500 (PDict [("error", PStr "internal"); ("detail", PStr detail)]))
       (with_device (snd (play_tone_for_ms 440 200 (1 # 2) (device e)))
          (consumed after chunks e))).
Proof.
  intros Hl Hu Hreq Hh Hc Hb Hd. eexists.
  rewrite (handle_client_post e req more _ rest headers after clen body_bytes chunks _
             Hl Hu Hreq Hh Hc Hb Hd).
  unfold guard_connection, try_finally, try_except, dispatch_post.
  cbn [String.eqb Ascii.eqb Bool.eqb]. unfold bind at 1. unfold call_async, ret, await.
  rewrite (handle_post_tone_accepted _ 440 200 (1 # 2) _ (tone_params_tone_body _ _ _)).
  reflexivity.
Qed.

Lemma tone_params_bad_freq (kvs : list (string * pyval)) (v : pyval) :
  dict_lookup "freq" kvs = Some v -> is_ok (py_int v) = false ->
  exists err, tone_params (PDict kvs) = Raise err /\ exn_kind_of err <> CancelledError.
Proof.
  intros Hl Hbad. unfold tone_params. simpl. rewrite Hl.
  destruct (py_int v) as [z|err] eqn:Hv; [discriminate|].
  exists err. split; [reflexivity|]. eapply py_int_error_kind; eauto.
Qed.

Lemma handle_post_tone_rejected (body : pyval) (err : exn) (e : Env) :
  tone_params body = Raise err -> exn_kind_of err <> CancelledError ->
  handle_post_tone body e =
  (Ok tt, written (reply 400 (PDict [("error", PStr "Invalid tone parameters")])) e).
Proof.
  intros Hp Hk. unfold handle_post_tone. rewrite Hp.
  destruct (exn_kind_of err); try reflexivity. contradiction.
Qed.

(** C7.  When the body of a [POST /tone] request has a [freq] field that
    [int()] rejects, [handle_post_tone] writes the single reply 400
    [{"error": "Invalid tone parameters"}] and nothing else changes; for
    the whole exchange of a request that reaches the handler (its request
    line and header lines decode, its [Content-Length] converts),
    [handle_client] sends that reply, closes the writer and leaves the
    device (tasks, slot, PWM) as it was. *)
Theorem post_tone_rejects_bad_freq (kvs : list (string * pyval)) (v : pyval) :
  dict_lookup "freq" kvs = Some v ->
  is_ok (py_int v) = false ->
  (forall e : Env,
      handle_post_tone (PDict kvs) e =
      (Ok tt, written (reply 400 (PDict [("error", PStr "Invalid tone parameters")])) e))
  /\ (forall (e : Env) req more rest headers after clen body_bytes chunks,
      rd_lines (conn e) = req :: more ->
      utf8_check req = true ->
      split_ws (strip req) = "POST" :: "/tone" :: rest ->
      read_headers_from more [] = (Ok headers, after) ->
      content_length headers = Ok clen ->
      read_body_from clen EmptyString (rd_chunks (conn e)) = (body_bytes, chunks) ->
      decode_body body_bytes = Some (PDict kvs) ->
      handle_client e =
      (Ok tt, replied (reply 400 (PDict [("error", PStr "Invalid tone parameters")]))
                (consumed after chunks e))
      /\ device (snd (handle_client e)) = device e).
Proof.
  intros Hl Hbad. destruct (tone_params_bad_freq kvs v Hl Hbad) as (err & Hp & Hk).
  split.
  - intros e. now apply (handle_post_tone_rejected _ err).
  - intros e req more rest headers after clen body_bytes chunks H1 Hu H2 H3 H4 H5 H6.
    assert (Hc : handle_client e =
                 (Ok tt, replied (reply 400 (PDict [("error", PStr "Invalid tone parameters")]))
                           (consumed after chunks e))).
    { rewrite (handle_client_post e req more _ rest headers after clen body_bytes chunks _
                 H1 Hu H2 H3 H4 H5 H6).
      unfold guard_connection, try_finally, try_except, dispatch_post.
      cbn [String.eqb Ascii.eqb Bool.eqb]. unfold bind at 1. unfold call_async, ret, await.
      now rewrite (handle_post_tone_rejected _ err _ Hp Hk). }
    split; [exact Hc | now rewrite Hc].
Qed.

Lemma read_body_empty (clen : Z) (chunks : list string) :
  clen <= 0 \/ hd EmptyString chunks = EmptyString ->
  fst (read_body_from clen EmptyString chunks) = EmptyString.
Proof.
  intros H. destruct chunks as [|c rest]; simpl.
  - now destruct (Z.ltb (strlen EmptyString) clen).
  - destruct (Z.ltb_spec (strlen EmptyString) clen) as [Hlt|Hge]; [|reflexivity].
    destruct H as [H|H]; [unfold strlen in Hlt; simpl in Hlt; lia|].
    simpl in H. subst c. unfold take_bytes. simpl.
    now destruct (Z.to_nat (clen - strlen EmptyString)).
Qed.

Lemma cancel_playback_ok (d : Device) : fst (cancel_playback d) = Ok tt.
Proof. unfold cancel_playback. now rewrite cancel_current_playback_eq. Qed.

(** C9.  A [POST] that gets as far as its body (the request line and the
    header lines decode, [Content-Length] converts) and whose body comes
    out empty, because the declared length is not positive or because the
    first read finds no byte, is dispatched with the empty object as body,
    whatever [ujson.loads] would make of empty text: [/cancel] cancels the
    playback and answers 202 [{"status": "canceled"}]; [/tone] answers 400
    [{"error": "Invalid tone parameters"}], not [{"error": "Invalid JSON"}]. *)
Theorem empty_body_is_empty_object (e : Env) req more path rest headers after clen :
  rd_lines (conn e) = req :: more ->
  utf8_check req = true ->
  split_ws (strip req) = "POST" :: path :: rest ->
  read_headers_from more [] = (Ok headers, after) ->
  content_length headers = Ok clen ->
  clen <= 0 \/ hd EmptyString (rd_chunks (conn e)) = EmptyString ->
  let chunks := snd (read_body_from clen EmptyString (rd_chunks (conn e))) in
  handle_client e = guard_connection (dispatch_post path (PDict [])) (consumed after chunks e)
  /\ (path = "/cancel" ->
   handle_client e =
   (Ok tt, replied (reply 202 (PDict [("status", PStr "canceled")]))
             (with_device (snd (cancel_current_playback (device e)))
                (consumed after chunks e))))
  /\ (path = "/tone" ->
      handle_client e =
      (Ok tt, replied (reply 400 (PDict [("error", PStr "Invalid tone parameters")]))
                (consumed after chunks e))).
Proof.
  intros H1 Hu H2 H3 H4 Hempty chunks.
  pose proof (read_body_empty clen _ Hempty) as Hb.
  assert (H5 : read_body_from clen EmptyString (rd_chunks (conn e)) = (EmptyString, chunks)).
  { subst chunks. destruct (read_body_from clen EmptyString (rd_chunks (conn e))).
    simpl in *. now subst. }
  pose proof (handle_client_post e req more path rest headers after clen EmptyString chunks
                (PDict []) H1 Hu H2 H3 H4 H5 eq_refl) as Hc.
  split; [exact Hc|]. split; intros ->; rewrite Hc.
  - unfold guard_connection, try_finally, try_except, dispatch_post.
    cbn [String.eqb Ascii.eqb Bool.eqb]. unfold bind at 1. unfold call_async, ret, await.
    unfold handle_post_cancel, try_except, bind, on_device, zoom.
    pose proof (cancel_playback_ok (device e)) as Hok. unfold cancel_playback in *.
    change (device (consumed after chunks e)) with (device e).
    destruct (cancel_current_playback (device e)) as [r d']. simpl in Hok. subst r.
    reflexivity.
  - unfold guard_connection, try_finally, try_except, dispatch_post.
    cbn [String.eqb Ascii.eqb Bool.eqb]. unfold bind at 1. unfold call_async, ret, await.
    reflexivity.
Qed.

Local Close Scope string_scope.

(** The first turn of a tone task with a positive frequency programs the
    PWM with the unclamped duty value. *)
Lemma first_turn_of_tone (freq ms : Z) (duty : Q) (d : Device) :
  0 < freq ->
  let d' := snd (play_tone_for_ms freq ms duty d) in
  exists h,
    _current_task d' = Some h
    /\ pwm_duty (pwm (loop_turn h d')) = trunc (rnd (inject_Z 65535 * duty)).
Proof.
  intros Hf d'. subst d'. rewrite play_tone_for_ms_eq. simpl.
  set (d1 := snd (cancel_current_playback d)).
  exists (length (tasks d1)). split; [reflexivity|].
  erewrite loop_turn_eq; [|simpl; now apply list_lookup_middle].
  cbn [pwm with_pwm snd]. unfold resume, new_task. cbn [t_state t_cancel].
  unfold _play_note_async, hw, start_tone, bind, lift_result, py_le_zero.
  cbn [co_bind co_try_finally run].
  destruct (Z.leb_spec freq 0); [lia|]. reflexivity.
Qed.

(** C10.  Duty is not validated.  For the bodies
    [{"freq": 440, "ms": 200, "duty": 2.0}] and [... "duty": -1.0], whose
    duty lies outside [0, 1], the parameters are accepted (no reply 400 is
    written), the tone task is installed in the slot, and on its first turn
    [start_tone] writes [int(65535 * duty)] to the duty register: 131070
    and -65535, outside 0..65535. *)
Theorem duty_is_not_validated (duty : Q) (e : Env) :
  duty = (2 # 1)%Q \/ duty = (-1 # 1)%Q ->
  let body := tone_body 440 200 duty in
  let e' := snd (handle_post_tone body e) in
  ~ (0 <= duty /\ duty <= 1)%Q
  /\ tone_params body = Ok (440, 200, duty)
  /\ sent (conn e') = sent (conn e)
  /\ exists h,
       _current_task (device e') = Some h
       /\ pwm_duty (pwm (loop_turn h (device e'))) = trunc (rnd (inject_Z 65535 * duty))
       /\ ~ (0 <= trunc (rnd (inject_Z 65535 * duty)) <= 65535).
Proof.
  intros Hd body e'. subst body e'.
  rewrite (handle_post_tone_accepted _ 440 200 duty e (tone_params_tone_body _ _ _)).
  cbn [snd]. split; [|split; [reflexivity|split; [reflexivity|]]].
  - destruct Hd as [-> | ->]; intros [H0 H1]; [apply H1 | apply H0]; reflexivity.
  - change (device (with_device ?x e)) with x.
    destruct (first_turn_of_tone 440 200 duty (device e)) as (h & Hc & Hp); [lia|].
    exists h. split; [exact Hc|split; [exact Hp|]].
    destruct Hd as [-> | ->].
    + rewrite (trunc_integer _ 131070); [lia|].
      rewrite <- (rnd_exact 131070) by (simpl; lia). now apply rnd_proper.
    + rewrite (trunc_integer _ (-65535)); [lia|].
      rewrite <- (rnd_exact (-65535)) by (simpl; lia). now apply rnd_proper.
Qed.

(** ** Further properties: sensor and buzzer *)

Lemma trunc_nonneg_floor (q : Q) : (0 <= q)%Q -> trunc q = Qfloor q.
Proof.
  destruct q as [a b]. unfold Qle, trunc, Qfloor. simpl. intros H.
  rewrite Z.mul_1_r in H. apply Z.quot_div_nonneg; lia.
Qed.

Lemma trunc_range (q : Q) (n : Z) :
  (0 <= q)%Q -> (q <= inject_Z n)%Q -> 0 <= trunc q <= n.
Proof.
  intros H0 Hn. rewrite (trunc_nonneg_floor q H0). split.
  - change 0 with (Qfloor 0). now apply Qfloor_resp_le.
  - rewrite <- (Qfloor_Z n). now apply Qfloor_resp_le.
Qed.

Lemma rnd_le_int (q : Q) (z : Z) :
  Z.abs z <= 2 ^ 24 -> (q <= inject_Z z)%Q -> (rnd q <= inject_Z z)%Q.
Proof.
  intros Hz H. apply Qle_trans with (rnd (inject_Z z)); [now apply rnd_mono|].
  apply Qle_lteq. right. now apply rnd_exact.
Qed.

Lemma rnd_ge_int (q : Q) (z : Z) :
  Z.abs z <= 2 ^ 24 -> (inject_Z z <= q)%Q -> (inject_Z z <= rnd q)%Q.
Proof.
  intros Hz H. apply Qle_trans with (rnd (inject_Z z)); [|now apply rnd_mono].
  apply Qle_lteq. right. symmetry. now apply rnd_exact.
Qed.

(** X1.  [estimate_lux] never decreases when the normalised level grows, and
    for a level in [0, 1] the estimate lies in [0, 1000]. *)
Theorem estimate_lux_monotone_bounded (x y : Q) :
  (x <= y)%Q ->
  (estimate_lux x <= estimate_lux y)%Q
  /\ ((0 <= x)%Q -> (y <= 1)%Q ->
      (0 <= estimate_lux x)%Q /\ (estimate_lux y <= inject_Z 1000)%Q).
Proof.
  intros Hxy. unfold estimate_lux. split.
  - apply rnd_mono. apply Qmult_le_compat_r; [exact Hxy | discriminate].
  - intros H0 H1. split.
    + apply (rnd_ge_int _ 0); [simpl; lia|].
      apply Qmult_le_0_compat; [exact H0 | discriminate].
    + apply rnd_le_int; [simpl; lia|].
      apply Qle_trans with (1 * inject_Z 1000)%Q.
      * apply Qmult_le_compat_r; [exact H1 | discriminate].
      * rewrite Qmult_1_l. apply Qle_refl.
Qed.

Lemma clamp_mono (a b lo hi : Z) :
  a <= b ->
  (if a <? lo then lo else if a >? hi then hi else a)
  <= (if b <? lo then lo else if b >? hi then hi else b) \/ hi < lo.
Proof.
  intros H. destruct (Z.ltb_spec a lo), (Z.ltb_spec b lo),
    (Z.gtb_spec a hi), (Z.gtb_spec b hi); lia.
Qed.

Lemma clamp_range (a lo hi : Z) :
  lo <= hi ->
  lo <= (if a <? lo then lo else if a >? hi then hi else a) <= hi.
Proof.
  intros H. destruct (Z.ltb_spec a lo), (Z.gtb_spec a hi); lia.
Qed.

Lemma Qdiv_int_le (a b c : Z) :
  0 < c -> a <= b -> (inject_Z a / inject_Z c <= inject_Z b / inject_Z c)%Q.
Proof.
  intros Hc Hab. unfold Qdiv. apply Qmult_le_compat_r.
  - now rewrite <- Zle_Qle.
  - apply Qinv_le_0_compat. change 0%Q with (inject_Z 0). rewrite <- Zle_Qle. lia.
Qed.

(** X2.  For every calibration range with [min_in < max_in],
    [normalize_raw] returns a value (it does not raise), the value lies in
    [0, 1], and a larger raw reading never gives a smaller value. *)
Theorem normalize_raw_monotone (min_in max_in raw raw' : Z) :
  min_in < max_in -> raw <= raw' ->
  exists q q' : Q,
    normalize_raw raw min_in max_in = Ok q
    /\ normalize_raw raw' min_in max_in = Ok q'
    /\ (0 <= q)%Q /\ (q <= q')%Q /\ (q' <= 1)%Q.
Proof.
  intros Hmm Hrr. unfold normalize_raw, truediv.
  destruct (Z.eqb_spec (max_in - min_in) 0) as [E|_]; [lia|].
  do 2 eexists. split; [reflexivity|split; [reflexivity|]].
  pose proof (clamp_range raw min_in max_in ltac:(lia)) as Hc.
  pose proof (clamp_range raw' min_in max_in ltac:(lia)) as Hc'.
  destruct (clamp_mono raw raw' min_in max_in Hrr) as [Hm|Hm]; [|lia].
  set (c := if raw <? min_in then _ else _) in *.
  set (c' := if raw' <? min_in then _ else _) in *.
  clearbody c c'. split; [|split].
  - apply (rnd_ge_int _ 0); [simpl; lia|].
    apply Qle_shift_div_l.
    + change 0%Q with (inject_Z 0). rewrite <- Zlt_Qlt. lia.
    + rewrite Qmult_0_l. change 0%Q with (inject_Z 0). rewrite <- Zle_Qle. lia.
  - apply rnd_mono. apply Qdiv_int_le; lia.
  - apply (rnd_le_int _ 1); [simpl; lia|].
    apply Qle_shift_div_r.
    + change 0%Q with (inject_Z 0). rewrite <- Zlt_Qlt. lia.
    + change (inject_Z 1) with 1%Q. rewrite Qmult_1_l. rewrite <- Zle_Qle. lia.
Qed.

(** X3.  Degenerate calibration.  When [min_in = max_in],
    [normalize_raw] raises [ZeroDivisionError], whatever the reading, and
    it raises in no other case.  With an inverted range, [max_in < min_in],
    it is a step: 0 for every reading below [min_in] and 1 for every other
    reading. *)
Theorem normalize_raw_degenerate_range (raw min_in max_in : Z) :
  (min_in = max_in ->
   exists err, normalize_raw raw min_in max_in = Raise err
               /\ exn_kind_of err = ZeroDivisionError)
  /\ (is_ok (normalize_raw raw min_in max_in) = false -> min_in = max_in)
  /\ (max_in < min_in ->
      exists q : Q,
        normalize_raw raw min_in max_in = Ok q
        /\ (raw < min_in -> (q == 0)%Q)
        /\ (min_in <= raw -> (q == 1)%Q)).
Proof.
  unfold normalize_raw, truediv. split; [|split].
  - intros E. destruct (Z.eqb_spec (max_in - min_in) 0); [|lia]. now eexists.
  - destruct (Z.eqb_spec (max_in - min_in) 0); simpl; intros; [lia | discriminate].
  - intros Hinv. destruct (Z.eqb_spec (max_in - min_in) 0) as [E|_]; [lia|].
    eexists. split; [reflexivity|]. split; intros Hr.
    + destruct (Z.ltb_spec raw min_in); [|lia].
      rewrite <- rnd_zero. apply rnd_proper. rewrite Z.sub_diag. reflexivity.
    + destruct (Z.ltb_spec raw min_in); [lia|].
      destruct (Z.gtb_spec raw max_in); [|lia].
      rewrite <- rnd_one. apply rnd_proper. apply Qmult_inv_r.
      intros E. apply (inject_Z_injective (max_in - min_in) 0) in E. lia.
Qed.

(** X4.  For a positive frequency and a duty in [0, 1], [start_tone]
    returns normally, programs exactly that frequency, and writes a duty
    value between 0 and 65535. *)
Theorem start_tone_in_range (freq : Z) (duty : Q) (p : PWM) :
  0 < freq -> (0 <= duty)%Q -> (duty <= 1)%Q ->
  start_tone (PInt freq) duty p =
  (Ok tt, {| pwm_freq := Some freq; pwm_duty := duty_u16_of duty |})
  /\ 0 <= duty_u16_of duty <= 65535.
Proof.
  intros Hf H0 H1. split.
  - unfold start_tone, bind, lift_result. simpl.
    destruct (Z.leb_spec freq 0); [lia | reflexivity].
  - unfold duty_u16_of. apply trunc_range.
    + apply (rnd_ge_int _ 0); [simpl; lia|].
      apply Qmult_le_0_compat; [discriminate | exact H0].
    + apply rnd_le_int; [simpl; lia|].
      apply Qle_trans with (inject_Z 65535 * 1)%Q.
      * apply Qmult_le_l; [reflexivity | exact H1].
      * rewrite Qmult_1_r. apply Qle_refl.
Qed.

(** ** Further properties: playback *)

Lemma wake_add (n m : nat) (st : TaskState * PWM) :
  wake (n + m) st = wake m (wake n st).
Proof.
  revert st. induction n as [|n IH]; intros st; simpl; [reflexivity|].
  destruct (fst st) as [c|ms k|r] eqn:E; try apply IH.
  destruct m; simpl; [reflexivity|]. now rewrite E.
Qed.

Lemma start_tone_positive (freq : Z) (duty : Q) (p : PWM) :
  0 < freq ->
  start_tone (PInt freq) duty p =
  (Ok tt, {| pwm_freq := Some freq; pwm_duty := duty_u16_of duty |}).
Proof.
  intros Hf. unfold start_tone, bind, lift_result. simpl.
  destruct (Z.leb_spec freq 0); [lia | reflexivity].
Qed.

(** X5.  A tone with a positive frequency: the first turn of
    [_play_note_async] programs the frequency and the duty and suspends for
    [ms]; when the sleep elapses the task completes, and when it is
    cancelled instead the task ends in [CancelledError]; both ways the duty
    register is set to zero and the frequency is left alone. *)
Theorem tone_sounds_then_stops (freq ms : Z) (duty : Q) (p : PWM) :
  0 < freq ->
  exists k,
    run (_play_note_async freq ms duty) p =
    (Suspended ms k, {| pwm_freq := Some freq; pwm_duty := duty_u16_of duty |})
    /\ (forall p', run (k Wake) p' = (Finished (Ok tt), set_duty 0 p'))
    /\ (forall p', run (k Cancel) p' = (Finished (Raise cancelled), set_duty 0 p')).
Proof.
  intros Hf. unfold _play_note_async, hw. cbn [co_bind co_try_finally run].
  rewrite (start_tone_positive freq duty p Hf). cbn [sleep_ms co_bind co_try_finally run].
  eexists. split; [reflexivity|]. split; intros p'; reflexivity.
Qed.

(** One well-formed note at the head of a melody: the note sounds, then
    the gap is silent, then the rest of the melody follows. *)
Lemma melody_note_step (f ms : Z) (rest : list pyval) (gap_ms : Z) (duty : Q) (p : PWM) :
  0 < f ->
  exists k1,
    run (_play_melody_async (pair_note (f, ms) :: rest) gap_ms duty) p =
    (Suspended ms k1, {| pwm_freq := Some f; pwm_duty := duty_u16_of duty |})
    /\ forall p1, exists k2,
         run (k1 Wake) p1 = (Suspended gap_ms k2, set_duty 0 p1)
         /\ forall p2, run (k2 Wake) p2 = run (_play_melody_async rest gap_ms duty) p2.
Proof.
  intros Hf. unfold _play_melody_async, hw, pair_note.
  cbn [co_for unpack_note fst snd co_bind co_try_finally run].
  rewrite (start_tone_positive f duty p Hf). cbn [sleep_ms co_bind co_try_finally run].
  eexists. split; [reflexivity|]. intros p1. cbn [co_bind co_try_finally run].
  eexists. split; [reflexivity|]. intros p2. reflexivity.
Qed.

Lemma melody_empty (gap_ms : Z) (duty : Q) (p : PWM) :
  run (_play_melody_async [] gap_ms duty) p = (Finished (Ok tt), set_duty 0 p).
Proof. reflexivity. Qed.

(** X6.  A melody of [freq, ms] pairs with positive frequencies is played
    in order: after [2 i] further turns note [i] is sounding (its
    frequency, the requested duty) and the task sleeps for that note's
    [ms]; one turn later the duty is zero and the task sleeps for [gap_ms];
    after [2 n] turns, [n] the number of notes, the task has completed and
    the buzzer is silent.  The empty melody completes on its first turn. *)
Theorem melody_plays_in_order (notes : list (Z * Z)) (gap_ms : Z) (duty : Q) (p : PWM) :
  Forall (fun note => 0 < fst note) notes ->
  let first_turn := run (_play_melody_async (map pair_note notes) gap_ms duty) p in
  (forall i f ms,
      notes !! i = Some (f, ms) ->
      (exists k, wake (2 * i) first_turn =
                 (Suspended ms k, {| pwm_freq := Some f; pwm_duty := duty_u16_of duty |}))
      /\ (exists k, wake (2 * i + 1) first_turn =
                    (Suspended gap_ms k, {| pwm_freq := Some f; pwm_duty := 0 |})))
  /\ (exists p', wake (2 * length notes) first_turn = (Finished (Ok tt), p') /\ silent p').
Proof.
  intros Hpos. revert p. induction Hpos as [|[f ms] notes Hf _ IH]; intros p; cbv zeta.
  - split; [intros i f ms Hl; now rewrite lookup_nil in Hl|].
    simpl. eexists. split; reflexivity.
  - simpl in Hf. cbn [map].
    destruct (melody_note_step f ms (map pair_note notes) gap_ms duty p Hf) as (k1 & H1 & Hk1).
    destruct (Hk1 {| pwm_freq := Some f; pwm_duty := duty_u16_of duty |}) as (k2 & H2 & Hk2).
    assert (Hwake2 : forall n, wake (2 + n) (run (_play_melody_async
                        (pair_note (f, ms) :: map pair_note notes) gap_ms duty) p)
                     = wake n (run (_play_melody_async (map pair_note notes) gap_ms duty)
                                 {| pwm_freq := Some f; pwm_duty := 0 |})).
    { intros n. rewrite H1. cbn [wake plus fst snd]. rewrite H2. cbn [fst snd].
      now rewrite Hk2. }
    split.
    + intros [|i] g ms' Hl.
      * injection Hl as <- <-. split.
        -- exists k1. simpl. exact H1.
        -- exists k2. rewrite H1. cbn [wake Nat.mul Nat.add fst snd]. exact H2.
      * cbn [lookup list_lookup] in Hl.
        destruct (IH {| pwm_freq := Some f; pwm_duty := 0 |}) as [IHi _].
        destruct (IHi i g ms' Hl) as [Ha Hb].
        replace (2 * S i)%nat with (2 + 2 * i)%nat by lia.
        replace (2 + 2 * i + 1)%nat with (2 + (2 * i + 1))%nat by lia.
        rewrite !Hwake2. split; assumption.
    + destruct (IH {| pwm_freq := Some f; pwm_duty := 0 |}) as [_ IHend].
      cbn [length]. replace (2 * S (length notes))%nat with (2 + 2 * length notes)%nat by lia.
      rewrite Hwake2. exact IHend.
Qed.

(** X7.  A note whose frequency cannot be compared with zero (text, null,
    a list, an object) passes the two-element check of the request handler,
    and playback stops there: after the well-formed notes before it have
    been played, the task ends with the error of the comparison, the buzzer
    is silent, and no later note is played. *)
Theorem melody_stops_at_bad_note
    (good : list (Z * Z)) (v ms : pyval) (rest : list pyval) (err : exn)
    (gap_ms : Z) (duty : Q) (p : PWM) :
  Forall (fun note => 0 < fst note) good ->
  py_le_zero v = Raise err ->
  is_pair (PList [v; ms]) = true
  /\ exists p',
       wake (2 * length good)
         (run (_play_melody_async (map pair_note good ++ PList [v; ms] :: rest) gap_ms duty) p)
       = (Finished (Raise err), p')
       /\ silent p'.
Proof.
  intros Hpos Hv. split; [reflexivity|]. revert p.
  induction Hpos as [|[f m] good Hf _ IH]; intros p.
  - simpl. unfold _play_melody_async, hw.
    cbn [co_for unpack_note fst snd co_bind co_try_finally run].
    unfold start_tone, bind, lift_result. rewrite Hv.
    cbn [co_bind co_try_finally run]. eexists. split; reflexivity.
  - simpl in Hf. cbn [map app].
    destruct (melody_note_step f m (map pair_note good ++ PList [v; ms] :: rest)
                gap_ms duty p Hf) as (k1 & H1 & Hk1).
    destruct (Hk1 {| pwm_freq := Some f; pwm_duty := duty_u16_of duty |}) as (k2 & H2 & Hk2).
    cbn [length]. replace (2 * S (length good))%nat with (2 + 2 * length good)%nat by lia.
    rewrite H1. cbn [wake plus fst snd]. rewrite H2. cbn [fst snd]. rewrite Hk2.
    apply IH.
Qed.

(** ** Further properties: the request router *)

Local Open Scope string_scope.

Lemma await_async (m : M Env unit) (e : Env) :
  (x <- call_async m ;; await x) e = m e.
Proof. reflexivity. Qed.

Lemma send_json_eq (code : Z) (obj : pyval) (e : Env) :
  send_json code obj e = (Ok tt, written (reply code obj) e).
Proof. reflexivity. Qed.

Lemma answered_send_json (code : Z) (obj : pyval) (codes : list Z) (e : Env) :
  In code codes -> answered codes e (send_json code obj e).
Proof.
  intros Hin. exists (reply code obj). rewrite send_json_eq. simpl.
  repeat split; auto. now left.
Qed.

Lemma answered_base (codes : list Z) (e e1 : Env) out :
  same_base e e1 -> answered codes e1 out -> answered codes e out.
Proof.
  intros (Hs & Hc & Hd) (r & H1 & H2 & H3 & H4 & H5). exists r.
  rewrite <- Hs, <- Hc, <- Hd. repeat split; assumption.
Qed.

Lemma failed_base (e e1 : Env) out : same_base e e1 -> failed e1 out -> failed e out.
Proof.
  intros (Hs & Hc & Hd) (err & H1 & H2 & H3 & H4 & H5). exists err.
  rewrite <- Hs, <- Hc, <- Hd. repeat split; assumption.
Qed.

Lemma answered_weaken (codes codes' : list Z) (e : Env) out :
  (forall c, In c codes -> In c codes') -> answered codes e out -> answered codes' e out.
Proof.
  intros Hsub (r & H1 & H2 & H3 & H4 & H5). exists r. repeat split; auto.
Qed.

Lemma py_float_error_kind (v : pyval) (e : exn) :
  py_float v = Raise e -> exn_kind_of e <> CancelledError.
Proof.
  destruct v; simpl; try discriminate; try (intros [= <-]; discriminate).
  destruct (float_of_str s); [discriminate|]. intros [= <-]. discriminate.
Qed.

Lemma py_get_error_kind (obj : pyval) (key : string) (default : pyval) (e : exn) :
  py_get obj key default = Raise e -> exn_kind_of e <> CancelledError.
Proof.
  destruct obj; simpl; try discriminate; intros [= <-]; discriminate.
Qed.

Lemma get_int_error_kind (obj : pyval) (key : string) (default : pyval) (e : exn) :
  rbind (py_get obj key default) py_int = Raise e -> exn_kind_of e <> CancelledError.
Proof.
  destruct (py_get obj key default) as [v|e0] eqn:E; simpl.
  - apply py_int_error_kind.
  - intros [= <-]. eapply py_get_error_kind; eauto.
Qed.

Lemma get_float_error_kind (obj : pyval) (key : string) (default : pyval) (e : exn) :
  rbind (py_get obj key default) py_float = Raise e -> exn_kind_of e <> CancelledError.
Proof.
  destruct (py_get obj key default) as [v|e0] eqn:E; simpl.
  - apply py_float_error_kind.
  - intros [= <-]. eapply py_get_error_kind; eauto.
Qed.

Lemma tone_params_error_kind (body : pyval) (e : exn) :
  tone_params body = Raise e -> exn_kind_of e <> CancelledError.
Proof.
  unfold tone_params.
  destruct (rbind (py_get body "freq" PNone) py_int) as [f|e1] eqn:E1; simpl;
    [|intros [= <-]; eapply get_int_error_kind; eauto].
  destruct (rbind (py_get body "ms" (PInt 250)) py_int) as [m|e2] eqn:E2; simpl;
    [|intros [= <-]; eapply get_int_error_kind; eauto].
  destruct (rbind (py_get body "duty" (PFloat (1 # 2))) py_float) as [d|e3] eqn:E3; simpl;
    [discriminate|intros [= <-]; eapply get_float_error_kind; eauto].
Qed.

Lemma melody_params_error_kind (body : pyval) (e : exn) :
  melody_params body = Raise e -> exn_kind_of e <> CancelledError.
Proof.
  unfold melody_params.
  destruct (py_get body "notes" (PList [])) as [ns|e0] eqn:E0; simpl;
    [|intros [= <-]; eapply py_get_error_kind; eauto].
  destruct (rbind (py_get body "gap_ms" (PInt 50)) py_int) as [g|e2] eqn:E2; simpl;
    [|intros [= <-]; eapply get_int_error_kind; eauto].
  destruct (rbind (py_get body "duty" (PFloat (1 # 2))) py_float) as [d|e3] eqn:E3; simpl;
    [|intros [= <-]; eapply get_float_error_kind; eauto].
  destruct ns; try (intros [= <-]; discriminate).
  destruct (forallb is_pair l); [discriminate|]. intros [= <-]. discriminate.
Qed.

Lemma handle_post_melody_accepted (body : pyval) notes (gap_ms : Z) (duty : Q) (e : Env) :
  melody_params body = Ok (notes, gap_ms, duty) ->
  handle_post_melody body e =
  (Raise (Exn TypeError "object isn't awaitable"),
   with_device (snd (play_melody notes gap_ms duty (device e))) e).
Proof.
  intros Hp. unfold handle_post_melody. rewrite Hp.
  unfold call_def, on_device, zoom, bind, ret. rewrite play_melody_eq. reflexivity.
Qed.

Lemma handle_post_melody_rejected (body : pyval) (err : exn) (e : Env) :
  melody_params body = Raise err -> exn_kind_of err <> CancelledError ->
  handle_post_melody body e =
  (Ok tt, written (reply 400 (PDict [("error", PStr "Invalid melody payload");
                                      ("detail", PStr (exn_msg err))])) e).
Proof.
  intros Hp Hk. unfold handle_post_melody. rewrite Hp.
  destruct (exn_kind_of err); try reflexivity. contradiction.
Qed.

Lemma outcome_post_tone (body : pyval) (e : Env) :
  answered [400] e (handle_post_tone body e) \/ failed e (handle_post_tone body e).
Proof.
  destruct (tone_params body) as [[[f m] d]|err] eqn:Hp.
  - right. rewrite (handle_post_tone_accepted body f m d e Hp).
    eexists. simpl. repeat split; try reflexivity; try discriminate.
    right. now exists (EvTone f m d).
  - left. rewrite (handle_post_tone_rejected body err e Hp (tone_params_error_kind _ _ Hp)).
    rewrite <- send_json_eq. apply answered_send_json. now left.
Qed.

Lemma outcome_post_melody (body : pyval) (e : Env) :
  answered [400] e (handle_post_melody body e) \/ failed e (handle_post_melody body e).
Proof.
  destruct (melody_params body) as [[[ns g] d]|err] eqn:Hp.
  - right. rewrite (handle_post_melody_accepted body ns g d e Hp).
    eexists. simpl. repeat split; try reflexivity; try discriminate.
    right. now exists (EvMelody ns g d).
  - left. rewrite (handle_post_melody_rejected body err e Hp (melody_params_error_kind _ _ Hp)).
    rewrite <- send_json_eq. apply answered_send_json. now left.
Qed.

Lemma handle_post_cancel_eq (e : Env) :
  handle_post_cancel e =
  (Ok tt, written (reply 202 (PDict [("status", PStr "canceled")]))
            (with_device (snd (cancel_current_playback (device e))) e)).
Proof.
  unfold handle_post_cancel, try_except, bind, on_device, zoom, cancel_playback.
  pose proof (cancel_playback_ok (device e)) as Hok. unfold cancel_playback in Hok.
  destruct (cancel_current_playback (device e)) as [r d']. simpl in Hok. subst r.
  reflexivity.
Qed.

Lemma outcome_post_cancel (e : Env) : answered [202] e (handle_post_cancel e).
Proof.
  rewrite handle_post_cancel_eq. eexists. simpl.
  repeat split; try reflexivity; [now left|]. right. now exists EvCancel.
Qed.

Lemma outcome_get_sensor (e : Env) : failed e (handle_get_sensor e).
Proof.
  eexists. unfold handle_get_sensor, bind, on_device, zoom. rewrite sensor_payload_raises.
  simpl. repeat split; try reflexivity; [discriminate|]. now left.
Qed.

Lemma outcome_get_health (e : Env) : failed e (handle_get_health e).
Proof.
  eexists. unfold handle_get_health, health_payload, bind, get, on_device, zoom.
  rewrite sensor_payload_raises.
  simpl. repeat split; try reflexivity; [discriminate|]. now left.
Qed.

Lemma outcome_dispatch_post (path : string) (body : pyval) (e : Env) :
  let out := dispatch_post path body e in
  answered (if String.eqb path "/cancel" then [202; 400] else [400; 404]) e out
  \/ failed e out.
Proof.
  cbv zeta. unfold dispatch_post.
  destruct (String.eqb_spec path "/tone") as [->|H1].
  - rewrite await_async. simpl String.eqb. cbv iota.
    destruct (outcome_post_tone body e) as [H|H]; [left|now right].
    eapply answered_weaken; [|exact H]. simpl. tauto.
  - destruct (String.eqb_spec path "/melody") as [->|H2].
    + rewrite await_async. simpl String.eqb. cbv iota.
      destruct (outcome_post_melody body e) as [H|H]; [left|now right].
      eapply answered_weaken; [|exact H]. simpl. tauto.
    + destruct (String.eqb_spec path "/cancel") as [->|H3].
      * rewrite await_async. left.
        eapply answered_weaken; [|apply outcome_post_cancel]. simpl. tauto.
      * left. unfold not_found. rewrite await_async. apply answered_send_json.
        simpl. tauto.
Qed.

Lemma outcome_route_post (path : string) (headers : list (string * string)) (e : Env) :
  let out := route_post path headers e in
  answered (if String.eqb path "/cancel" then [202; 400] else [400; 404]) e out
  \/ failed e out.
Proof.
  cbv zeta. unfold route_post, bind, lift_result.
  destruct (content_length headers) as [clen|err] eqn:Hc.
  - unfold on_conn, zoom, read_body.
    destruct (read_body_from clen EmptyString (rd_chunks (conn e))) as [body_bytes rest].
    set (e1 := with_conn _ e).
    assert (Hb : same_base e e1) by (repeat split).
    destruct (decode_body body_bytes) as [body|].
    + destruct (outcome_dispatch_post path body e1) as [H|H].
      * left. eapply answered_base; eauto.
      * right. eapply failed_base; eauto.
    + left. eapply answered_base; [exact Hb|].
      apply (answered_send_json 400 (PDict [("error", PStr "Invalid JSON")]) _ e1).
      destruct (String.eqb path "/cancel"); simpl; tauto.
  - right. exists err. simpl. repeat split; auto.
    + unfold content_length in Hc. eapply py_int_error_kind; eauto.
    + now left.
Qed.

Lemma outcome_route_get (path : string) (e : Env) :
  answered [404] e (route_get path e) \/ failed e (route_get path e).
Proof.
  unfold route_get.
  destruct (String.eqb path "/sensor").
  - right. rewrite await_async. apply outcome_get_sensor.
  - destruct (String.eqb path "/health").
    + right. rewrite await_async. apply outcome_get_health.
    + left. unfold not_found. rewrite await_async. apply answered_send_json. now left.
Qed.

(** The [try] block of [handle_client] on a request line that is not empty. *)
Lemma outcome_serve_request (e : Env) req more :
  rd_lines (conn e) = req :: more -> is_empty req = false ->
  let out := serve_request e in
  answered (codes_for e) e out \/ failed e out.
Proof.
  intros Hl Hne. cbv zeta.
  unfold codes_for, request_parts. rewrite Hl. cbn [hd].
  unfold serve_request, bind, on_conn, zoom, readline. rewrite Hl, Hne.
  set (e0 := with_conn _ e).
  assert (Hb0 : same_base e e0) by (repeat split).
  unfold lift_result, decode. destruct (utf8_check req); cbv iota.
  2: { right. eexists. simpl. repeat split; try reflexivity; [discriminate | now left]. }
  destruct (split_ws (strip req)) as [|method [|path rest]].
  - left. eapply answered_base; [exact Hb0|].
    apply (answered_send_json 400 (PDict [("error", PStr "Bad Request")]) _ e0).
    simpl. tauto.
  - left. eapply answered_base; [exact Hb0|].
    apply (answered_send_json 400 (PDict [("error", PStr "Bad Request")]) _ e0).
    simpl. tauto.
  - unfold read_headers.
    assert (Hc0 : conn e0 = {| rd_lines := more; rd_chunks := rd_chunks (conn e);
                               sent := sent (conn e); closed := closed (conn e) |})
      by reflexivity.
    rewrite Hc0. cbn [rd_lines rd_chunks sent closed].
    destruct (read_headers_from more []) as [hres after] eqn:Hh.
    set (e1 := with_conn _ e0).
    assert (Hb1 : same_base e e1) by (repeat split).
    destruct hres as [headers|err].
    2: { right. exists err. simpl. repeat split; try reflexivity; [|now left].
         rewrite (read_headers_error_kind _ _ _ _ Hh). discriminate. }
    cbn [is_cancel_request].
    destruct (String.eqb_spec method "GET") as [->|Hg].
    + simpl andb. cbv iota.
      destruct (outcome_route_get path e1) as [H|H].
      * left. eapply answered_base; [exact Hb1|].
        eapply answered_weaken; [|exact H]. simpl. tauto.
      * right. eapply failed_base; eauto.
    + destruct (String.eqb_spec method "POST") as [->|Hp].
      * destruct (outcome_route_post path headers e1) as [H|H].
        -- left. eapply answered_base; [exact Hb1|].
           eapply answered_weaken; [|exact H].
           simpl andb. destruct (String.eqb path "/cancel"); simpl; tauto.
        -- right. eapply failed_base; eauto.
      * left. eapply answered_base; [exact Hb1|].
        apply (answered_send_json 405 (PDict [("error", PStr "Method Not Allowed")]) _ e1).
        simpl. tauto.
Qed.

(** Every exchange: normal return, writer closed, and either no reply at
    all (the peer sent no request line) or exactly one. *)
Lemma handle_client_outcome (e : Env) :
  exists e',
    handle_client e = (Ok tt, e')
    /\ closed (conn e') = true
    /\ dev_moves (device e) (device e')
    /\ ((is_empty (hd EmptyString (rd_lines (conn e))) = true
         /\ sent (conn e') = sent (conn e))
        \/ (is_empty (hd EmptyString (rd_lines (conn e))) = false
            /\ exists r, sent (conn e') = (sent (conn e) ++ [r])%list
                         /\ In (status r) (codes_for e))).
Proof.
  unfold handle_client, guard_connection, try_finally.
  destruct (rd_lines (conn e)) as [|req more] eqn:Hl.
  - eexists. unfold try_except, serve_request, bind, on_conn, zoom, readline.
    rewrite Hl. simpl. repeat split; [now left | left; split; reflexivity].
  - cbn [hd]. destruct (is_empty req) eqn:Hne.
    + eexists. unfold try_except, serve_request, bind, on_conn, zoom, readline.
      rewrite Hl, Hne. simpl. repeat split; [now left | left; split; reflexivity].
    + destruct (outcome_serve_request e req more Hl Hne) as [H|H].
      * destruct H as (r & H1 & H2 & H3 & H4 & H5).
        unfold try_except. destruct (serve_request e) as [res e1]. simpl in *. subst res.
        eexists. split; [reflexivity|]. simpl. repeat split; auto.
        right. split; [reflexivity|]. exists r. split; [exact H2|].
        unfold codes_for, request_parts in *. rewrite Hl in *. exact H3.
      * destruct H as (err & H1 & H2 & H3 & H4 & H5).
        unfold try_except. destruct (serve_request e) as [res e1]. simpl in *. subst res.
        destruct (exn_kind_of err) eqn:Hk; try contradiction;
          (eexists; split; [reflexivity|]; simpl; repeat split; auto;
           right; split; [reflexivity|]; eexists; split; [now rewrite H3|];
           unfold codes_for; destruct (is_cancel_request _); simpl; tauto).
Qed.

(** X13.  Whatever the peer sends, [handle_client] returns normally
    (no exception reaches the server loop) and the writer is closed when it
    returns. *)
Theorem handle_client_returns_and_closes (e : Env) :
  fst (handle_client e) = Ok tt /\ closed (conn (snd (handle_client e))) = true.
Proof.
  destruct (handle_client_outcome e) as (e' & H & Hc & _). rewrite H. auto.
Qed.

(** X14.  [handle_client] writes at most one reply per connection: none
    exactly when the first [readline()] returns nothing, one otherwise. *)
Theorem handle_client_one_reply (e : Env) :
  exists rs,
    sent (conn (snd (handle_client e))) = (sent (conn e) ++ rs)%list
    /\ (length rs <= 1)%nat
    /\ (rs = [] <-> is_empty (hd EmptyString (rd_lines (conn e))) = true).
Proof.
  destruct (handle_client_outcome e) as (e' & H & _ & _ & [[He Hs]|[He (r & Hs & _)]]);
    rewrite H; cbn [snd].
  - exists []. rewrite Hs, app_nil_r. repeat split; auto.
  - exists [r]. split; [exact Hs|]. split; [simpl; lia|]. rewrite He.
    split; discriminate.
Qed.

(** X15.  Every reply [handle_client] writes has status 202, 400, 404,
    405 or 500 (never 200), and 202 is sent only for a request line that
    starts with [POST /cancel]. *)
Theorem handle_client_status_codes (e : Env) (rs : list Response) (r : Response) :
  sent (conn (snd (handle_client e))) = (sent (conn e) ++ rs)%list ->
  In r rs ->
  In (status r) [202; 400; 404; 405; 500]
  /\ (status r = 202 ->
      exists rest, request_parts e = "POST" :: "/cancel" :: rest).
Proof.
  intros Hs Hin.
  destruct (handle_client_outcome e) as (e' & H & _ & _ & [[He Hs']|[He (r' & Hs' & Hcodes)]]);
    rewrite H in Hs; cbn [snd] in Hs; rewrite Hs' in Hs.
  - rewrite <- (app_nil_r (sent (conn e))) in Hs at 1.
    apply app_inv_head in Hs. subst rs. destruct Hin.
  - apply app_inv_head in Hs. subst rs. destruct Hin as [<-|[]].
    unfold codes_for in Hcodes.
    destruct (is_cancel_request (request_parts e)) eqn:Hcr.
    + split; [simpl in *; tauto|]. intros _.
      unfold is_cancel_request in Hcr.
      destruct (request_parts e) as [|m [|p rest]]; try discriminate.
      apply andb_true_iff in Hcr as [Hm Hp].
      apply String.eqb_eq in Hm, Hp. subst. now exists rest.
    + split; [simpl in *; tauto|]. intros H202. simpl in Hcodes. lia.
Qed.


Lemma guard_answer (m : M Env unit) (e e1 : Env) (r : Response) :
  m e = (Ok tt, written r e1) -> guard_connection m e = (Ok tt, replied r e1).
Proof.
  intros H. unfold guard_connection, try_finally, try_except. now rewrite H.
Qed.

Lemma guard_failure (m : M Env unit) (e e1 : Env) (err : exn) :
  m e = (Raise err, e1) -> exn_kind_of err <> CancelledError ->
  guard_connection m e = (Ok tt, replied (reply 500 (internal_error (exn_msg err))) e1).
Proof.
  intros H Hk. unfold guard_connection, try_finally, try_except. rewrite H.
  destruct (exn_kind_of err); try reflexivity. contradiction.
Qed.

Lemma serve_request_other (e : Env) req more method path rest headers after :
  rd_lines (conn e) = req :: more ->
  utf8_check req = true ->
  split_ws (strip req) = method :: path :: rest ->
  method <> "GET" -> method <> "POST" ->
  read_headers_from more [] = (Ok headers, after) ->
  serve_request e =
  (Ok tt, written (reply 405 (PDict [("error", PStr "Method Not Allowed")]))
            (consumed after (rd_chunks (conn e)) e)).
Proof.
  intros Hl Hu Hreq Hg Hp Hh.
  rewrite (serve_request_headers e req more method path rest _ after Hl Hu Hreq Hh).
  destruct (String.eqb_spec method "GET"); [contradiction|].
  destruct (String.eqb_spec method "POST"); [contradiction|]. reflexivity.
Qed.

(** X17.  A request whose request line and header lines decode and whose
    method is neither [GET] nor [POST] is answered 405
    [{"error": "Method Not Allowed"}], whatever its path and the content of
    its headers; the headers are consumed, the body is not read. *)
Theorem other_methods_get_405 (e : Env) req more method path rest headers after :
  rd_lines (conn e) = req :: more ->
  utf8_check req = true ->
  split_ws (strip req) = method :: path :: rest ->
  method <> "GET" -> method <> "POST" ->
  read_headers_from more [] = (Ok headers, after) ->
  handle_client e =
  (Ok tt, replied (reply 405 (PDict [("error", PStr "Method Not Allowed")]))
            (consumed after (rd_chunks (conn e)) e)).
Proof.
  intros Hl Hu Hreq Hg Hp Hh. unfold handle_client, guard_connection, try_finally, try_except.
  now rewrite (serve_request_other e req more method path rest headers after
                 Hl Hu Hreq Hg Hp Hh).
Qed.

(** X18.  Of the requests whose request line and header lines decode, a
    [GET] for a path other than [/sensor] and [/health], and a [POST] with
    a [Content-Length] that converts and a decodable body for a path other
    than [/tone], [/melody] and [/cancel], are answered 404
    [{"error": "Not Found"}]. *)
Theorem unknown_paths_get_404 (e : Env) req more method path rest headers after :
  rd_lines (conn e) = req :: more ->
  utf8_check req = true ->
  split_ws (strip req) = method :: path :: rest ->
  read_headers_from more [] = (Ok headers, after) ->
  (method = "GET" -> path <> "/sensor" -> path <> "/health" ->
   handle_client e =
   (Ok tt, replied (reply 404 (PDict [("error", PStr "Not Found")]))
             (consumed after (rd_chunks (conn e)) e)))
  /\ (method = "POST" -> path <> "/tone" -> path <> "/melody" -> path <> "/cancel" ->
      forall clen body_bytes chunks body,
        content_length headers = Ok clen ->
        read_body_from clen EmptyString (rd_chunks (conn e)) = (body_bytes, chunks) ->
        decode_body body_bytes = Some body ->
        handle_client e =
        (Ok tt, replied (reply 404 (PDict [("error", PStr "Not Found")]))
                  (consumed after chunks e))).
Proof.
  intros Hl Hu Hreq Hh. split.
  - intros -> Hs Hhe.
    rewrite (handle_client_get e req more path rest headers after Hl Hu Hreq Hh).
    apply guard_answer. unfold route_get.
    destruct (String.eqb_spec path "/sensor"); [contradiction|].
    destruct (String.eqb_spec path "/health"); [contradiction|]. reflexivity.
  - intros -> Ht Hm Hc clen body_bytes chunks body Hcl Hb Hd.
    rewrite (handle_client_post e req more path rest headers after clen body_bytes chunks body
               Hl Hu Hreq Hh Hcl Hb Hd).
    apply guard_answer. unfold dispatch_post.
    destruct (String.eqb_spec path "/tone"); [contradiction|].
    destruct (String.eqb_spec path "/melody"); [contradiction|].
    destruct (String.eqb_spec path "/cancel"); [contradiction|]. reflexivity.
Qed.

(** X19.  A request line that is not empty, decodes, and has fewer than
    two tokens is answered 400 [{"error": "Bad Request"}]; no header line
    is read. *)
Theorem short_request_line_gets_400 (e : Env) req more :
  rd_lines (conn e) = req :: more ->
  is_empty req = false ->
  utf8_check req = true ->
  (length (split_ws (strip req)) < 2)%nat ->
  handle_client e =
  (Ok tt, replied (reply 400 (PDict [("error", PStr "Bad Request")]))
            (consumed more (rd_chunks (conn e)) e)).
Proof.
  intros Hl Hne Hu Hlen. unfold handle_client. apply guard_answer.
  unfold serve_request, bind, on_conn, zoom, readline. rewrite Hl, Hne.
  unfold lift_result. rewrite (decode_ok req Hu).
  destruct (split_ws (strip req)) as [|x [|y rest]]; [reflexivity | reflexivity |].
  simpl in Hlen. lia.
Qed.

(** X20.  A [POST] that gets as far as its body (the request line and the
    header lines decode, [Content-Length] converts), whose body is not
    empty and which [ujson.loads] rejects, is answered 400
    [{"error": "Invalid JSON"}] whatever the path, [/cancel] included, and
    the device is left as it was. *)
Theorem undecodable_body_gets_400 (e : Env) req more path rest headers after
    clen body_bytes chunks :
  rd_lines (conn e) = req :: more ->
  utf8_check req = true ->
  split_ws (strip req) = "POST" :: path :: rest ->
  read_headers_from more [] = (Ok headers, after) ->
  content_length headers = Ok clen ->
  read_body_from clen EmptyString (rd_chunks (conn e)) = (body_bytes, chunks) ->
  decode_body body_bytes = None ->
  handle_client e =
  (Ok tt, replied (reply 400 (PDict [("error", PStr "Invalid JSON")]))
            (consumed after chunks e))
  /\ device (snd (handle_client e)) = device e.
Proof.
  intros Hl Hu Hreq Hh Hc Hb Hd.
  assert (H : handle_client e =
              (Ok tt, replied (reply 400 (PDict [("error", PStr "Invalid JSON")]))
                        (consumed after chunks e))).
  { unfold handle_client, guard_connection, try_finally, try_except.
    rewrite (serve_request_post e req more path rest headers after clen body_bytes chunks
               Hl Hu Hreq Hh Hc Hb), Hd. reflexivity. }
  split; [exact H | now rewrite H].
Qed.

(** X21.  A [POST] whose request line and header lines decode and whose
    [Content-Length] header [int()] rejects is answered 500 with the
    conversion error as detail (not 400); the body is not read. *)
Theorem bad_content_length_gets_500 (e : Env) req more path rest headers after err :
  rd_lines (conn e) = req :: more ->
  utf8_check req = true ->
  split_ws (strip req) = "POST" :: path :: rest ->
  read_headers_from more [] = (Ok headers, after) ->
  content_length headers = Raise err ->
  handle_client e =
  (Ok tt, replied (reply 500 (internal_error (exn_msg err)))
            (consumed after (rd_chunks (conn e)) e)).
Proof.
  intros Hl Hu Hreq Hh Hc. unfold handle_client.
  apply guard_failure; [|unfold content_length in Hc; eapply py_int_error_kind; eauto].
  rewrite (serve_request_headers e req more _ path rest _ after Hl Hu Hreq Hh).
  cbn [String.eqb Ascii.eqb Bool.eqb].
  unfold route_post, bind, lift_result. rewrite Hc. reflexivity.
Qed.

(** X22.  [POST /cancel] that gets as far as its body (the request line
    and the header lines decode, [Content-Length] converts), with any
    decodable body, whatever its content, cancels the playback and is
    answered 202 [{"status": "canceled"}]; on a reachable device the buzzer
    is then silent and no task is running. *)
Theorem post_cancel_ignores_body (e : Env) req more rest headers after
    clen body_bytes chunks body :
  rd_lines (conn e) = req :: more ->
  utf8_check req = true ->
  split_ws (strip req) = "POST" :: "/cancel" :: rest ->
  read_headers_from more [] = (Ok headers, after) ->
  content_length headers = Ok clen ->
  read_body_from clen EmptyString (rd_chunks (conn e)) = (body_bytes, chunks) ->
  decode_body body_bytes = Some body ->
  handle_client e =
  (Ok tt, replied (reply 202 (PDict [("status", PStr "canceled")]))
            (with_device (snd (cancel_current_playback (device e)))
               (consumed after chunks e)))
  /\ (reachable (device e) ->
      silent (pwm (device (snd (handle_client e))))
      /\ forall h t, tasks (device (snd (handle_client e))) !! h = Some t ->
                     lifecycle t <> Running).
Proof.
  intros Hl Hu Hreq Hh Hc Hb Hd.
  assert (H : handle_client e =
              (Ok tt, replied (reply 202 (PDict [("status", PStr "canceled")]))
                        (with_device (snd (cancel_current_playback (device e)))
                           (consumed after chunks e)))).
  { rewrite (handle_client_post e req more _ rest headers after clen body_bytes chunks body
               Hl Hu Hreq Hh Hc Hb Hd).
    apply guard_answer. unfold dispatch_post. cbn [String.eqb Ascii.eqb Bool.eqb].
    rewrite await_async. exact (handle_post_cancel_eq (consumed after chunks e)). }
  split; [exact H|]. intros Hr. rewrite H. cbn [snd replied with_conn with_device device].
  destruct (inv_cancel (device e) (reachable_inv _ Hr)) as (_ & Hs & _ & Hnr).
  split; [exact Hs|]. intros h t Hl'. apply not_running_lifecycle. eapply Hnr; eauto.
Qed.

(** X10.  Every [GET /health] request is answered with status 500 and
    the internal-error body, whatever its header lines, those that do not
    decode included: [health_payload] builds its [sensor] entry with
    [sensor_payload], whose call of [normalize_raw] raises [TypeError]. *)
Theorem get_health_replies_500 (e : Env) req more rest hres after :
  rd_lines (conn e) = req :: more ->
  utf8_check req = true ->
  split_ws (strip req) = "GET" :: "/health" :: rest ->
  read_headers_from more [] = (hres, after) ->
  (exists err, fst (health_payload "pico-w-unknown" e) = Raise err
               /\ exn_kind_of err = TypeError)
  /\ exists detail,
       handle_client e =
       (Ok tt, replied (reply 500 (internal_error detail))
                 (consumed after (rd_chunks (conn e)) e)).
Proof.
  intros Hl Hu Hreq Hh. split.
  - eexists. split; reflexivity.
  - destruct hres as [headers|err].
    + eexists. rewrite (handle_client_get e req more _ rest headers after Hl Hu Hreq Hh).
      reflexivity.
    + eexists. apply (handle_client_bad_header e req more _ _ rest err after Hl Hu Hreq Hh).
Qed.

Lemma post_melody_rejects_bad_notes_aux
    (body notes : pyval) (gap_ms : Z) (duty : Q) (e : Env) :
  py_get body "notes" (PList []) = Ok notes ->
  rbind (py_get body "gap_ms" (PInt 50)) py_int = Ok gap_ms ->
  rbind (py_get body "duty" (PFloat (1 # 2))) py_float = Ok duty ->
  valid_notes notes = false ->
  handle_post_melody body e =
  (Ok tt, written (reply 400 (PDict [("error", PStr "Invalid melody payload");
                                      ("detail", PStr "notes must be [[freq, ms], ...]")]))
            e).
Proof.
  intros Hn Hg Hd Hv.
  apply (handle_post_melody_rejected body (Exn ValueError "notes must be [[freq, ms], ...]"));
    [|discriminate].
  unfold melody_params. rewrite Hn. cbn [rbind]. rewrite Hg. cbn [rbind]. rewrite Hd.
  cbn [rbind]. unfold valid_notes in Hv. destruct notes; try reflexivity. now rewrite Hv.
Qed.

(** X11.  When [gap_ms] and [duty] convert but [notes] is not a list of
    two-element lists, [handle_post_melody] writes the single reply 400
    [{"error": "Invalid melody payload", "detail": "notes must be [[freq,
    ms], ...]"}] and leaves the device as it was. *)
Theorem post_melody_rejects_bad_notes (body notes : pyval) (gap_ms : Z) (duty : Q) (e : Env) :
  py_get body "notes" (PList []) = Ok notes ->
  rbind (py_get body "gap_ms" (PInt 50)) py_int = Ok gap_ms ->
  rbind (py_get body "duty" (PFloat (1 # 2))) py_float = Ok duty ->
  valid_notes notes = false ->
  handle_post_melody body e =
  (Ok tt, written (reply 400 (PDict [("error", PStr "Invalid melody payload");
                                      ("detail", PStr "notes must be [[freq, ms], ...]")]))
            e)
  /\ device (snd (handle_post_melody body e)) = device e.
Proof.
  intros Hn Hg Hd Hv.
  pose proof (post_melody_rejects_bad_notes_aux body notes gap_ms duty e Hn Hg Hd Hv) as H.
  split; [exact H | now rewrite H].
Qed.

(** X12.  A [POST /melody] that reaches the handler (the request line and
    the header lines decode, [Content-Length] converts, the body decodes)
    and whose body passes validation installs the melody task and is then
    answered with status 500, not 202: the handler awaits the integer that
    [play_melody] returned. *)
Theorem post_melody_replies_500 (e : Env) req more rest headers after
    clen body_bytes chunks body notes gap_ms duty :
  rd_lines (conn e) = req :: more ->
  utf8_check req = true ->
  split_ws (strip req) = "POST" :: "/melody" :: rest ->
  read_headers_from more [] = (Ok headers, after) ->
  content_length headers = Ok clen ->
  read_body_from clen EmptyString (rd_chunks (conn e)) = (body_bytes, chunks) ->
  decode_body body_bytes = Some body ->
  melody_params body = Ok (notes, gap_ms, duty) ->
  exists detail,
    handle_client e =
    (Ok tt, replied (reply 500 (internal_error detail))
              (with_device (snd (play_melody notes gap_ms duty (device e)))
                 (consumed after chunks e))).
Proof.
  intros Hl Hu Hreq Hh Hc Hb Hd Hp. eexists.
  rewrite (handle_client_post e req more _ rest headers after clen body_bytes chunks body
             Hl Hu Hreq Hh Hc Hb Hd).
  apply guard_failure with (err := Exn TypeError "object isn't awaitable"); [|discriminate].
  unfold dispatch_post. cbn [String.eqb Ascii.eqb Bool.eqb]. rewrite await_async.
  exact (handle_post_melody_accepted body notes gap_ms duty (consumed after chunks e) Hp).
Qed.

Lemma read_headers_from_undecodable (good : list string) (bad : string) (post : list string)
    (headers : list (string * string)) :
  Forall decodable_header good ->
  ends_headers bad = false -> utf8_check bad = false ->
  exists err, read_headers_from (good ++ bad :: post) headers = (Raise err, post).
Proof.
  intros Hgood Hb Hu. revert headers.
  induction Hgood as [|line good [Hl Hd] _ IH]; intros headers; simpl.
  - unfold ends_headers in Hb. rewrite Hb. unfold decode. rewrite Hu. now eexists.
  - unfold ends_headers in Hl. rewrite Hl. unfold decode. rewrite Hd.
    destruct (split_colon line) as [|k [|v [|x xs]]]; apply IH.
Qed.

(** X26.  Bytes that are not UTF-8 in the request head.  A request line
    that is not empty and does not decode is answered 500 with the
    internal-error body, and no header line is read.  After a request line
    with at least two tokens, a header line that does not decode is
    answered 500 as well, whatever the method and the path: the lines
    after it and the body are not read.  In both cases the device is left
    as it was. *)
Theorem undecodable_line_gets_500 (e : Env) req more :
  rd_lines (conn e) = req :: more ->
  is_empty req = false ->
  (utf8_check req = false ->
   exists detail,
     handle_client e =
     (Ok tt, replied (reply 500 (internal_error detail))
               (consumed more (rd_chunks (conn e)) e)))
  /\ (forall method path rest good bad post,
      utf8_check req = true ->
      split_ws (strip req) = method :: path :: rest ->
      more = (good ++ bad :: post)%list ->
      Forall decodable_header good ->
      ends_headers bad = false -> utf8_check bad = false ->
      exists detail,
        handle_client e =
        (Ok tt, replied (reply 500 (internal_error detail))
                  (consumed post (rd_chunks (conn e)) e))).
Proof.
  intros Hl Hne. split.
  - intros Hu. eexists. unfold handle_client.
    apply guard_failure with (err := Exn UnicodeError "can't decode bytes as utf-8");
      [|discriminate].
    unfold serve_request, bind, on_conn, zoom, readline. rewrite Hl, Hne.
    unfold lift_result, decode. rewrite Hu. reflexivity.
  - intros method path rest good bad post Hu Hreq -> Hgood Hb Hbad.
    destruct (read_headers_from_undecodable good bad post [] Hgood Hb Hbad) as [err Hh].
    exists (exn_msg err).
    apply (handle_client_bad_header e req _ method path rest err post Hl Hu Hreq Hh).
Qed.

Local Close Scope string_scope.

(** ** Further properties: reading the body *)

Lemma append_nil_r (s : string) : (s ++ EmptyString)%string = s.
Proof. induction s as [|c s IH]; simpl; [reflexivity | now rewrite IH]. Qed.

Lemma append_assoc (a b c : string) : ((a ++ b) ++ c)%string = (a ++ (b ++ c))%string.
Proof. induction a as [|x a IH]; simpl; [reflexivity | now rewrite IH]. Qed.

Lemma length_append (a b : string) :
  String.length (a ++ b)%string = (String.length a + String.length b)%nat.
Proof. induction a as [|x a IH]; simpl; [reflexivity | now rewrite IH]. Qed.

Lemma length_substring (s : string) (n m : nat) :
  String.length (substring n m s) = Nat.min m (String.length s - n).
Proof.
  revert n m. induction s as [|c s IH]; intros [|n] [|m]; simpl; try reflexivity.
  - now rewrite IH, Nat.sub_0_r.
  - apply IH.
  - apply IH.
Qed.

Lemma substring_all (s : string) : substring 0 (String.length s) s = s.
Proof. induction s as [|c s IH]; simpl; [reflexivity | now rewrite IH]. Qed.

Lemma substring_split (s : string) (n : nat) :
  (substring 0 n s ++ substring n (String.length s - n) s)%string = s.
Proof.
  revert n. induction s as [|c s IH]; intros [|n]; try reflexivity.
  - cbn [substring append String.length Nat.sub]. now rewrite substring_all.
  - cbn [substring append String.length Nat.sub]. f_equal. apply IH.
Qed.

Lemma is_empty_length (s : string) : is_empty s = true <-> String.length s = 0%nat.
Proof. destruct s; simpl; split; intros; try discriminate; reflexivity. Qed.

Lemma is_empty_eq (s : string) : is_empty s = true <-> s = EmptyString.
Proof. destruct s; simpl; split; intros; try discriminate; reflexivity. Qed.

Lemma take_drop (n : Z) (s : string) : (take_bytes n s ++ drop_bytes n s)%string = s.
Proof. apply substring_split. Qed.

Lemma strlen_take (n : Z) (s : string) :
  0 <= n -> strlen (take_bytes n s) = Z.min n (strlen s).
Proof.
  intros Hn. unfold strlen, take_bytes. rewrite length_substring, Nat.sub_0_r. lia.
Qed.

Lemma strlen_drop (n : Z) (s : string) :
  0 <= n -> strlen (drop_bytes n s) = Z.max 0 (strlen s - n).
Proof.
  intros Hn. unfold strlen, drop_bytes. rewrite length_substring. lia.
Qed.

Lemma strlen_append (a b : string) : strlen (a ++ b)%string = strlen a + strlen b.
Proof. unfold strlen. rewrite length_append. lia. Qed.

Lemma strlen_zero (s : string) : strlen s = 0 <-> s = EmptyString.
Proof.
  unfold strlen. rewrite <- is_empty_eq, is_empty_length. lia.
Qed.

Lemma read_body_from_cons (clen : Z) (acc c : string) (rest : list string) :
  read_body_from clen acc (c :: rest) =
  if Z.ltb (strlen acc) clen then
    let chunk := take_bytes (clen - strlen acc) c in
    let left := drop_bytes (clen - strlen acc) c in
    if is_empty chunk then (acc, rest)
    else if is_empty left then read_body_from clen (acc ++ chunk)%string rest
    else ((acc ++ chunk)%string, left :: rest)
  else (acc, c :: rest).
Proof. reflexivity. Qed.

Lemma read_body_from_spec (clen : Z) (chunks : list string) (acc : string) :
  let out := read_body_from clen acc chunks in
  (fst out ++ concat_bytes (snd out))%string = (acc ++ concat_bytes chunks)%string
  /\ (strlen acc <= clen -> strlen (fst out) <= clen)
  /\ (Forall (fun c => c <> EmptyString) chunks -> strlen (fst out) < clen -> snd out = []).
Proof.
  cbv zeta. revert acc. induction chunks as [|c rest IH]; intros acc.
  - simpl. destruct (Z.ltb (strlen acc) clen); simpl; auto.
  - rewrite read_body_from_cons.
    destruct (Z.ltb_spec (strlen acc) clen) as [Hlt|Hge].
    2:{ simpl. repeat split; auto. intros _ H. lia. }
    cbv zeta. set (n := clen - strlen acc).
    assert (Hn : 0 < n) by (unfold n; lia).
    pose proof (take_drop n c) as Htd.
    pose proof (strlen_take n c ltac:(lia)) as Ht.
    pose proof (strlen_drop n c ltac:(lia)) as Hd.
    destruct (is_empty (take_bytes n c)) eqn:Ec.
    + apply is_empty_eq in Ec. rewrite Ec in Ht.
      assert (Hc : c = EmptyString).
      { apply strlen_zero. change (strlen EmptyString) with 0 in Ht.
        pose proof (Nat2Z.is_nonneg (String.length c)). unfold strlen in *. lia. }
      subst c. simpl. repeat split; auto.
      intros HF _. inversion HF; subst. congruence.
    + destruct (is_empty (drop_bytes n c)) eqn:El.
      * apply is_empty_eq in El. rewrite El in Htd, Hd. rewrite append_nil_r in Htd.
        rewrite Htd in *. destruct (IH (acc ++ c)%string) as (I1 & I2 & I3).
        split; [|split].
        -- rewrite I1. simpl. now rewrite append_assoc.
        -- intros _. apply I2. rewrite strlen_append.
           change (strlen EmptyString) with 0 in Hd. unfold n in *. lia.
        -- intros HF. inversion HF; subst. auto.
      * cbn [fst snd]. split; [|split].
        -- simpl. rewrite append_assoc. f_equal. rewrite <- append_assoc.
           now rewrite Htd.
        -- intros _. rewrite strlen_append. unfold n in *. lia.
        -- intros _ Hshort. exfalso. rewrite strlen_append in Hshort.
           assert (strlen (drop_bytes n c) <> 0).
           { intros E. apply strlen_zero in E. rewrite E in El. discriminate. }
           unfold n in *. lia.
Qed.

(** X23.  The body loop of [handle_client] neither loses nor reorders
    bytes: the body followed by what stays buffered is the stream as it
    arrived.  The body has at most [Content-Length] bytes, and it is shorter
    only when the stream ran out. *)
Theorem read_body_keeps_the_stream (clen : Z) (chunks : list string) :
  let body_bytes := fst (read_body_from clen EmptyString chunks) in
  let rest := snd (read_body_from clen EmptyString chunks) in
  (body_bytes ++ concat_bytes rest)%string = concat_bytes chunks
  /\ strlen body_bytes <= Z.max 0 clen
  /\ (Forall (fun c => c <> EmptyString) chunks -> strlen body_bytes < clen -> rest = []).
Proof.
  cbv zeta. destruct (read_body_from_spec clen chunks EmptyString) as (H1 & H2 & H3).
  split; [exact H1|]. split; [|exact H3].
  destruct (Z.le_gt_cases 0 clen) as [H|H].
  - change (strlen EmptyString) with 0 in H2. lia.
  - assert (E : read_body_from clen EmptyString chunks = (EmptyString, chunks)).
    { destruct chunks as [|c rest]; [simpl | rewrite read_body_from_cons];
        destruct (Z.ltb_spec (strlen EmptyString) clen) as [Hlt|_]; try reflexivity;
        change (strlen EmptyString) with 0 in Hlt; lia. }
    rewrite E. cbn [fst]. change (strlen EmptyString) with 0. lia.
Qed.

(** ** Further properties: the scheduler *)

(** X8.  In every reachable state in which no task is running, the
    duty register is zero: the buzzer never sounds without a running
    task. *)
Theorem idle_device_is_silent (d : Device) :
  reachable d ->
  (forall h t, tasks d !! h = Some t -> lifecycle t <> Running) ->
  silent (pwm d).
Proof.
  intros Hr Hidle. apply (inv_silent d (reachable_inv d Hr)).
  intros h t Hl. apply not_running_lifecycle. eauto.
Qed.

(** X9.  A turn given to a task that is not running (cancelled and not
    yet notified, or finished) never starts a tone: it leaves the PWM as it
    was or with duty zero, and the task does not become running again. *)
Theorem stale_task_never_sounds (d : Device) (h : nat) (t : Task) :
  reachable d ->
  tasks d !! h = Some t ->
  lifecycle t <> Running ->
  (pwm (loop_turn h d) = pwm d \/ silent (pwm (loop_turn h d)))
  /\ forall t', tasks (loop_turn h d) !! h = Some t' -> lifecycle t' <> Running.
Proof.
  intros Hr Hl Hnot. apply not_running_lifecycle in Hnot.
  pose proof (reachable_inv d Hr) as Hi.
  destruct (resume_spec t (pwm d) (inv_tasks d Hi h t Hl)) as (_ & R2 & _ & R4 & _).
  rewrite (loop_turn_eq h d t Hl). cbn [pwm with_pwm tasks with_tasks]. split.
  - destruct (R4 Hnot) as [H|H]; [now right | now left].
  - intros t' Hl'. rewrite list_lookup_insert_eq in Hl' by (eapply lookup_lt_Some; eauto).
    injection Hl' as <-. apply not_running_lifecycle.
    destruct (running (fst (resume t (pwm d)))) eqn:E; [|reflexivity].
    rewrite (R2 eq_refl) in Hnot. discriminate.
Qed.

(** ** Further properties: the coordinator *)

Lemma py_max_0_nonneg (y : Q) : (0 <= py_max_0 y)%Q.
Proof.
  unfold py_max_0. destruct (Qle_bool y 0) eqn:E; [apply Qle_refl|].
  apply Qlt_le_weak, Qnot_le_lt. intros H. apply Qle_bool_iff in H. congruence.
Qed.

Lemma py_min_10_le (x : Q) : (py_min_10 x <= inject_Z 10)%Q.
Proof.
  unfold py_min_10. destruct (Qle_bool x (inject_Z 10)) eqn:E; [|apply Qle_refl].
  now apply Qle_bool_iff.
Qed.

Lemma py_max_0_le (y : Q) (n : Z) : 0 <= n -> (y <= inject_Z n)%Q -> (py_max_0 y <= inject_Z n)%Q.
Proof.
  intros Hn H. unfold py_max_0. destruct (Qle_bool y 0); [|exact H].
  change 0%Q with (inject_Z 0). now rewrite <- Zle_Qle.
Qed.

Lemma py_min_10_mono (x y : Q) : (x <= y)%Q -> (py_min_10 x <= py_min_10 y)%Q.
Proof.
  intros H. unfold py_min_10.
  destruct (Qle_bool x (inject_Z 10)) eqn:Ex, (Qle_bool y (inject_Z 10)) eqn:Ey;
    try apply Qle_refl; try assumption.
  - now apply Qle_bool_iff.
  - apply Qle_bool_iff in Ey. exfalso.
    assert (Hx : (x <= inject_Z 10)%Q) by (eapply Qle_trans; eauto).
    apply Qle_bool_iff in Hx. congruence.
Qed.

Lemma py_max_0_mono (x y : Q) : (x <= y)%Q -> (py_max_0 x <= py_max_0 y)%Q.
Proof.
  intros H. unfold py_max_0.
  destruct (Qle_bool x 0) eqn:Ex, (Qle_bool y 0) eqn:Ey;
    try apply Qle_refl; try assumption.
  - apply Qlt_le_weak, Qnot_le_lt. intros Hy. apply Qle_bool_iff in Hy. congruence.
  - apply Qle_bool_iff in Ey. exfalso.
    assert (Hx : (x <= 0)%Q) by (eapply Qle_trans; eauto).
    apply Qle_bool_iff in Hx. congruence.
Qed.

(** X24.  dashboard.py: for every light level the bar length is between
    0 and 10, the bar has exactly ten cells, and a brighter level never
    gives a shorter bar. *)
Theorem bar_length_bounded (light_level : Q) :
  0 <= bar_length light_level <= 10
  /\ length (bar light_level) = 10%nat
  /\ forall brighter : Q,
       (light_level <= brighter)%Q -> bar_length light_level <= bar_length brighter.
Proof.
  assert (Hb : forall q, 0 <= bar_length q <= 10).
  { intros q. unfold bar_length. apply trunc_range; [apply py_max_0_nonneg|].
    apply py_max_0_le; [lia | apply py_min_10_le]. }
  split; [apply Hb|]. split.
  - unfold bar, py_repeat. rewrite length_app, !repeat_length.
    specialize (Hb light_level). lia.
  - intros brighter Hle. unfold bar_length.
    rewrite !trunc_nonneg_floor by apply py_max_0_nonneg.
    apply Qfloor_resp_le, py_max_0_mono, py_min_10_mono, rnd_mono.
    apply Qmult_le_compat_r; [exact Hle | discriminate].
Qed.

Lemma normalize_note_is_dict (n : list (string * pyval)) (note : pyval) :
  normalize_note n = Ok (Some note) -> is_pair note = false.
Proof.
  unfold normalize_note.
  destruct (dict_lookup "freq" n) as [f|]; [|discriminate].
  destruct (dict_lookup "ms" n) as [m|]; [|discriminate].
  destruct (py_int f); [|discriminate]. cbn [rbind].
  destruct (py_int m); [|discriminate]. cbn [rbind].
  destruct (py_float _); [|discriminate]. cbn [rbind].
  intros [= <-]. reflexivity.
Qed.

Lemma normalize_notes_are_dicts (notes : list (list (string * pyval))) (norm : list pyval) :
  normalize_notes notes = Ok norm -> Forall (fun note => is_pair note = false) norm.
Proof.
  revert norm. induction notes as [|n rest IH]; intros norm; simpl.
  - intros [= <-]. constructor.
  - destruct (normalize_note n) as [o|] eqn:En; [|discriminate]. cbn [rbind].
    destruct (normalize_notes rest) as [norm_rest|]; [|discriminate]. cbn [rbind].
    intros [= <-]. destruct o as [note|]; [|now apply IH].
    constructor; [now apply (normalize_note_is_dict n) | now apply IH].
Qed.

(** X25.  conductor.py against http.py.  Whenever
    [play_melody_on_all] posts a body at all, its notes are objects with
    [freq], [ms] and [duty], not [freq, ms] pairs, so the device's
    [handle_post_melody] answers it 400 "notes must be [[freq, ms], ...]"
    and plays nothing.  (The conversions [int] and [float] are taken as on
    the device; the property does not depend on what they return.) *)
Theorem conductor_melody_is_rejected
    (picos : list string) (notes : list (list (string * pyval))) (gap_ms : Z)
    (payload : pyval) (e : Env) :
  melody_broadcast picos notes gap_ms = Ok (Some payload) ->
  handle_post_melody payload e =
  (Ok tt, written (reply 400 (PDict [("error"%string, PStr "Invalid melody payload");
                                      ("detail"%string,
                                       PStr "notes must be [[freq, ms], ...]")]))
            e).
Proof.
  unfold melody_broadcast. intros H.
  destruct picos as [|ip picos]; [discriminate|].
  destruct notes as [|n0 notes]; [discriminate|].
  destruct (normalize_notes (n0 :: notes)) as [norm|] eqn:En; [|discriminate].
  cbn [rbind] in H. destruct norm as [|note norm]; [discriminate|].
  injection H as <-.
  apply (post_melody_rejects_bad_notes_aux _ (PList (note :: norm)) gap_ms (1 # 2));
    try reflexivity.
  apply normalize_notes_are_dicts in En. inversion En as [|? ? Hn _]; subst.
  simpl. now rewrite Hn.
Qed.

End Firmware.

(** * Instances of the properties on sample inputs *)

Lemma exact_rounding : Rounding exact_rnd.
Proof.
  split.
  - intros x y H. exact H.
  - intros z _. reflexivity.
Qed.

Lemma playing_reachable : reachable exact_rnd (playing exact_rnd).
Proof. unfold playing. repeat constructor. Qed.

Lemma single_flight_witness :
  reachable exact_rnd (playing exact_rnd)
  /\ (forall i ti,
        tasks (playing exact_rnd) !! i = Some ti -> lifecycle ti = Running ->
        _current_task (playing exact_rnd) = Some i).
Proof.
  split; [exact playing_reachable|].
  exact (proj1 (proj2 (single_flight exact_rnd (playing exact_rnd) playing_reachable))).
Defined.

Lemma cleanup_guarantee_witness :
  reachable exact_rnd (playing exact_rnd)
  /\ (forall e h t t',
        tasks (playing exact_rnd) !! h = Some t -> lifecycle t = Running ->
        tasks (step exact_rnd e (playing exact_rnd)) !! h = Some t' -> lifecycle t' <> Running ->
        silent (pwm (step exact_rnd e (playing exact_rnd)))).
Proof.
  split; [exact playing_reachable|].
  exact (proj1 (cleanup_guarantee exact_rnd (playing exact_rnd) playing_reachable)).
Defined.

Lemma cancel_current_playback_witness :
  reachable exact_rnd (playing exact_rnd)
  /\ silent (pwm (snd (cancel_current_playback (playing exact_rnd)))).
Proof.
  split; [exact playing_reachable|].
  exact (proj1 (proj2 (cancel_current_playback_silent_idempotent exact_rnd (playing exact_rnd)
                         playing_reachable))).
Defined.

Lemma normalize_raw_bounds_witness :
  Rounding exact_rnd
  /\ exists q : Q,
       normalize_raw exact_rnd 1000 RAW_MIN RAW_MAX = Ok q
       /\ (0 <= q)%Q /\ (q <= 1)%Q
       /\ (1000 <= RAW_MIN -> (q == 0)%Q)
       /\ (RAW_MAX <= 1000 -> (q == 1)%Q).
Proof.
  split; [exact exact_rounding|].
  exact (@normalize_raw_bounds exact_rnd exact_rounding 1000).
Defined.

Lemma start_tone_nonpositive_witness :
  -5 <= 0
  /\ start_tone exact_rnd (PInt (-5)) (1 # 2) _pwm_init = stop_tone _pwm_init.
Proof.
  split; [lia|].
  apply (start_tone_nonpositive_is_stop exact_rnd (-5) (1 # 2) _pwm_init). lia.
Defined.

Local Open Scope string_scope.

Lemma get_sensor_witness :
  split_ws (strip ("GET /sensor HTTP/1.1" ++ crlf)) = ["GET"; "/sensor"; "HTTP/1.1"]
  /\ exists detail,
       sent (conn (snd (handle_client exact_rnd (decodes_to PNone)
             no_float decimal_int well_formed_utf8
                          (request "GET /sensor HTTP/1.1" [] [])))) =
       [reply 500 (PDict [("error", PStr "internal"); ("detail", PStr detail)])].
Proof.
  split; [reflexivity|].
  destruct (get_sensor_replies_500 exact_rnd (decodes_to PNone)
        no_float decimal_int well_formed_utf8
              (request "GET /sensor HTTP/1.1" [] [])
              _ _ ["HTTP/1.1"] (Ok []) [] eq_refl eq_refl eq_refl eq_refl) as [_ [detail H]].
  exists detail. rewrite H. reflexivity.
Defined.

Lemma post_tone_witness :
  decode_body (decodes_to (tone_body 440 200 (1 # 2))) "{...}"
  = Some (tone_body 440 200 (1 # 2))
  /\ exists detail,
       sent (conn (snd (handle_client exact_rnd (decodes_to (tone_body 440 200 (1 # 2)))
             no_float decimal_int well_formed_utf8
                          (request "POST /tone HTTP/1.1" ["Content-Length: 5"] ["{...}"])))) =
       [reply 500 (PDict [("error", PStr "internal"); ("detail", PStr detail)])].
Proof.
  split; [reflexivity|].
  destruct (post_tone_replies_500 exact_rnd (decodes_to (tone_body 440 200 (1 # 2)))
        no_float decimal_int well_formed_utf8
              (request "POST /tone HTTP/1.1" ["Content-Length: 5"] ["{...}"])
              _ _ ["HTTP/1.1"] [("content-length", "5")] [] 5 "{...}" []
              eq_refl eq_refl eq_refl eq_refl eq_refl eq_refl eq_refl) as [detail H].
  exists detail. rewrite H. reflexivity.
Defined.

Lemma post_tone_rejects_bad_freq_witness :
  dict_lookup "freq" [("freq", PStr "abc")] = Some (PStr "abc")
  /\ is_ok (py_int decimal_int (PStr "abc")) = false
  /\ sent (conn (snd (handle_client exact_rnd (decodes_to (PDict [("freq", PStr "abc")]))
        no_float decimal_int well_formed_utf8
                        (request "POST /tone HTTP/1.1" ["Content-Length: 5"] ["{...}"])))) =
     [reply 400 (PDict [("error", PStr "Invalid tone parameters")])].
Proof.
  split; [reflexivity|split; [reflexivity|]].
  destruct (post_tone_rejects_bad_freq exact_rnd (decodes_to (PDict [("freq", PStr "abc")]))
              no_float decimal_int well_formed_utf8 [("freq", PStr "abc")] (PStr "abc")
              eq_refl eq_refl) as [_ H].
  destruct (H (request "POST /tone HTTP/1.1" ["Content-Length: 5"] ["{...}"])
              _ _ ["HTTP/1.1"] [("content-length", "5")] [] 5 "{...}" []
              eq_refl eq_refl eq_refl eq_refl eq_refl eq_refl eq_refl) as [Hc _].
  rewrite Hc. reflexivity.
Defined.

Lemma empty_body_witness :
  (0 <= 0 \/ hd EmptyString (@nil string) = EmptyString)
  /\ sent (conn (snd (handle_client exact_rnd (decodes_to PNone)
        no_float decimal_int well_formed_utf8
                        (request "POST /cancel HTTP/1.1" [] [])))) =
     [reply 202 (PDict [("status", PStr "canceled")])]
  /\ sent (conn (snd (handle_client exact_rnd (decodes_to PNone)
        no_float decimal_int well_formed_utf8
                        (request "POST /tone HTTP/1.1" ["Content-Length: 5"] [])))) =
     [reply 400 (PDict [("error", PStr "Invalid tone parameters")])].
Proof.
  split; [left; lia|split].
  - destruct (empty_body_is_empty_object exact_rnd (decodes_to PNone)
        no_float decimal_int well_formed_utf8
                (request "POST /cancel HTTP/1.1" [] [])
                _ _ "/cancel" ["HTTP/1.1"] [] [] 0
                eq_refl eq_refl eq_refl eq_refl eq_refl (or_introl (Z.le_refl 0))) as [_ [H _]].
    rewrite (H eq_refl). reflexivity.
  - destruct (empty_body_is_empty_object exact_rnd (decodes_to PNone)
        no_float decimal_int well_formed_utf8
                (request "POST /tone HTTP/1.1" ["Content-Length: 5"] [])
                _ _ "/tone" ["HTTP/1.1"] [("content-length", "5")] [] 5
                eq_refl eq_refl eq_refl eq_refl eq_refl (or_intror eq_refl)) as [_ [_ H]].
    rewrite (H eq_refl). reflexivity.
Defined.

Lemma duty_is_not_validated_witness :
  ((2 # 1)%Q = (2 # 1)%Q \/ (2 # 1)%Q = (-1 # 1)%Q)
  /\ exists h,
       _current_task
         (device (snd (handle_post_tone exact_rnd no_float decimal_int (tone_body 440 200 (2 # 1))
                         (request "POST /tone HTTP/1.1" [] [])))) = Some h
       /\ pwm_duty
            (pwm (loop_turn h
                    (device (snd (handle_post_tone exact_rnd
                          no_float decimal_int (tone_body 440 200 (2 # 1))
                                    (request "POST /tone HTTP/1.1" [] [])))))) = 131070.
Proof.
  split; [left; reflexivity|].
  destruct (@duty_is_not_validated exact_rnd no_float decimal_int exact_rounding (2 # 1)%Q
              (request "POST /tone HTTP/1.1" [] []) (or_introl eq_refl))
    as (_ & _ & _ & h & Hc & Hp & _).
  exists h. split; [exact Hc|]. rewrite Hp. reflexivity.
Defined.

Local Close Scope string_scope.

(** * Scenarios *)

(** The sample conversions on some texts. *)
Example sample_conversions :
  map decimal_int [" 440 "; "-5"; "4_40"; "4__40"; "_440"; "abc"; EmptyString]%string
  = [Some 440; Some (-5); Some 440; None; None; None; None]
  /\ map well_formed_utf8
       ["GET /sensor HTTP/1.1"%string;
        String (ascii_of_nat 195) (String (ascii_of_nat 169) EmptyString);
        String (ascii_of_nat 255) EmptyString;
        String (ascii_of_nat 192) (String (ascii_of_nat 128) EmptyString)]
     = [true; true; false; false].
Proof. split; reflexivity. Qed.

(** A tone sounds after its first turn and is silenced by its last. *)
Example tone_runs_to_completion :
  let d1 := step exact_rnd (EvTurn 0%nat) (step exact_rnd (EvTone 440 200 (1 # 2)) (boot 0)) in
  let d2 := step exact_rnd (EvTurn 0%nat) d1 in
  pwm d1 = {| pwm_freq := Some 440; pwm_duty := 32767 |}
  /\ map lifecycle (tasks d1) = [Running]
  /\ pwm d2 = {| pwm_freq := Some 440; pwm_duty := 0 |}
  /\ map lifecycle (tasks d2) = [Completed].
Proof. repeat split. Qed.

(** The melody [[440,100],[550,100]] with a 20 ms gap: two notes in order,
    silence in each gap, silence at the end. *)
Example melody_two_notes :
  let notes := [PList [PInt 440; PInt 100]; PList [PInt 550; PInt 100]] in
  let turn := step exact_rnd (EvTurn 0%nat) in
  let d0 := step exact_rnd (EvMelody notes 20 (1 # 2)) (boot 0) in
  map pwm [turn d0; turn (turn d0); turn (turn (turn d0)); turn (turn (turn (turn d0)));
           turn (turn (turn (turn (turn d0))))]
  = [ {| pwm_freq := Some 440; pwm_duty := 32767 |};
      {| pwm_freq := Some 440; pwm_duty := 0 |};
      {| pwm_freq := Some 550; pwm_duty := 32767 |};
      {| pwm_freq := Some 550; pwm_duty := 0 |};
      {| pwm_freq := Some 550; pwm_duty := 0 |} ]
  /\ map lifecycle (tasks (turn (turn (turn (turn (turn d0)))))) = [Completed].
Proof. repeat split. Qed.

(** A note whose frequency is text raises inside the melody; the task fails
    and the buzzer is silent. *)
Example melody_error_mid_playback :
  let notes := [PList [PInt 440; PInt 100]; PList [PStr "x"; PInt 100]] in
  let turn := step exact_rnd (EvTurn 0%nat) in
  let d0 := step exact_rnd (EvMelody notes 20 (1 # 2)) (boot 0) in
  map lifecycle (tasks (turn (turn (turn d0)))) = [Failed]
  /\ silent (pwm (turn (turn (turn d0)))).
Proof. repeat split. Qed.

(** A new tone preempts the sounding one: the old task is cancelled and the
    buzzer silenced at once; the cancellation is delivered on the old
    task's next turn. *)
Example tone_preempts_tone :
  let d1 := step exact_rnd (EvTone 880 100 (1 # 2)) (playing exact_rnd) in
  let d2 := step exact_rnd (EvTurn 0%nat) d1 in
  map lifecycle (tasks d1) = [Canceled; Running]
  /\ map done (tasks d1) = [false; false]
  /\ silent (pwm d1) /\ _current_task d1 = Some 1%nat
  /\ map done (tasks d2) = [true; false].
Proof. repeat split. Qed.

(** * Instances of the further properties *)

Lemma estimate_lux_witness :
  ((1 # 4) <= (1 # 2))%Q
  /\ (estimate_lux exact_rnd (1 # 4) <= estimate_lux exact_rnd (1 # 2))%Q.
Proof.
  assert (H : ((1 # 4) <= (1 # 2))%Q) by discriminate.
  split; [exact H|].
  exact (proj1 (@estimate_lux_monotone_bounded exact_rnd exact_rounding (1 # 4) (1 # 2) H)).
Defined.

Lemma normalize_raw_monotone_witness :
  0 < 1000 /\ 200 <= 700
  /\ exists q q' : Q,
       normalize_raw exact_rnd 200 0 1000 = Ok q
       /\ normalize_raw exact_rnd 700 0 1000 = Ok q'
       /\ (0 <= q)%Q /\ (q <= q')%Q /\ (q' <= 1)%Q.
Proof.
  split; [lia|]. split; [lia|].
  apply (@normalize_raw_monotone exact_rnd exact_rounding 0 1000 200 700); lia.
Defined.

Lemma normalize_raw_degenerate_witness :
  Rounding exact_rnd
  /\ (exists err, normalize_raw exact_rnd 5 7 7 = Raise err
                  /\ exn_kind_of err = ZeroDivisionError)
  /\ (exists q : Q, normalize_raw exact_rnd 5 9 7 = Ok q /\ (q == 0)%Q).
Proof.
  split; [exact exact_rounding|]. split.
  - exact (proj1 (@normalize_raw_degenerate_range exact_rnd exact_rounding 5 7 7) eq_refl).
  - destruct (proj2 (proj2 (@normalize_raw_degenerate_range exact_rnd exact_rounding 5 9 7))
                eq_refl) as (q & Hq & H0 & _).
    exists q. split; [exact Hq | apply H0; reflexivity].
Defined.

Lemma start_tone_in_range_witness :
  0 < 440 /\ (0 <= 1 # 2)%Q /\ (1 # 2 <= 1)%Q
  /\ 0 <= duty_u16_of exact_rnd (1 # 2) <= 65535.
Proof.
  assert (H0 : (0 <= 1 # 2)%Q) by discriminate.
  assert (H1 : (1 # 2 <= 1)%Q) by discriminate.
  split; [lia|]. split; [exact H0|]. split; [exact H1|].
  exact (proj2 (@start_tone_in_range exact_rnd exact_rounding 440 (1 # 2) _pwm_init
                  eq_refl H0 H1)).
Defined.

Lemma tone_sounds_then_stops_witness :
  0 < 440
  /\ exists k,
       run (_play_note_async exact_rnd 440 200 (1 # 2)) _pwm_init =
       (Suspended 200 k, {| pwm_freq := Some 440; pwm_duty := duty_u16_of exact_rnd (1 # 2) |})
       /\ (forall p', run (k Wake) p' = (Finished (Ok tt), set_duty 0 p'))
       /\ (forall p', run (k Cancel) p' = (Finished (Raise cancelled), set_duty 0 p')).
Proof.
  split; [lia|].
  apply (tone_sounds_then_stops exact_rnd 440 200 (1 # 2) _pwm_init). lia.
Defined.

Lemma melody_plays_in_order_witness :
  Forall (fun note => 0 < fst note) [(440, 100); (550, 100)]
  /\ exists p',
       wake (2 * 2)
         (run (_play_melody_async exact_rnd (map pair_note [(440, 100); (550, 100)]) 20 (1 # 2))
              _pwm_init)
       = (Finished (Ok tt), p') /\ silent p'.
Proof.
  assert (H : Forall (fun note : Z * Z => 0 < fst note) [(440, 100); (550, 100)]).
  { repeat constructor. }
  split; [exact H|].
  exact (proj2 (melody_plays_in_order exact_rnd [(440, 100); (550, 100)] 20 (1 # 2)
                  _pwm_init H)).
Defined.

Lemma melody_stops_at_bad_note_witness :
  Forall (fun note => 0 < fst note) [(440, 100)]
  /\ py_le_zero (PStr "x") = Raise (Exn TypeError "unsupported types for __le__")
  /\ exists p',
       wake (2 * 1)
         (run (_play_melody_async exact_rnd
                 (map pair_note [(440, 100)] ++ PList [PStr "x"; PInt 100] :: [PList [PInt 660; PInt 100]])
                 20 (1 # 2)) _pwm_init)
       = (Finished (Raise (Exn TypeError "unsupported types for __le__")), p')
       /\ silent p'.
Proof.
  assert (H : Forall (fun note : Z * Z => 0 < fst note) [(440, 100)]).
  { repeat constructor. }
  split; [exact H|]. split; [reflexivity|].
  exact (proj2 (melody_stops_at_bad_note exact_rnd [(440, 100)] (PStr "x") (PInt 100)
                  [PList [PInt 660; PInt 100]] _ 20 (1 # 2) _pwm_init H eq_refl)).
Defined.

Lemma played_reachable : reachable exact_rnd (played exact_rnd).
Proof. unfold played, playing. repeat constructor. Qed.

Lemma preempted_reachable : reachable exact_rnd (preempted exact_rnd).
Proof. unfold preempted, playing. repeat constructor. Qed.

Lemma idle_device_witness :
  reachable exact_rnd (played exact_rnd)
  /\ (forall h t, tasks (played exact_rnd) !! h = Some t -> lifecycle t <> Running)
  /\ silent (pwm (played exact_rnd)).
Proof.
  assert (H : forall h t, tasks (played exact_rnd) !! h = Some t -> lifecycle t <> Running).
  { intros [|[|h]] t; simpl; intros [= <-]. discriminate. }
  split; [exact played_reachable|]. split; [exact H|].
  exact (idle_device_is_silent exact_rnd (played exact_rnd) played_reachable H).
Defined.

Lemma stale_task_witness :
  reachable exact_rnd (preempted exact_rnd)
  /\ (exists t, tasks (preempted exact_rnd) !! 0%nat = Some t /\ lifecycle t <> Running)
  /\ (pwm (loop_turn 0 (preempted exact_rnd)) = pwm (preempted exact_rnd)
      \/ silent (pwm (loop_turn 0 (preempted exact_rnd)))).
Proof.
  split; [exact preempted_reachable|]. split.
  - eexists. split; [reflexivity|]. discriminate.
  - refine (proj1 (stale_task_never_sounds exact_rnd (preempted exact_rnd) 0 _
                     preempted_reachable eq_refl _)).
    discriminate.
Defined.

Local Open Scope string_scope.

Lemma get_health_witness :
  split_ws (strip ("GET /health HTTP/1.1" ++ crlf)) = ["GET"; "/health"; "HTTP/1.1"]
  /\ exists detail,
       sent (conn (snd (handle_client exact_rnd decodes_nothing
             no_float decimal_int well_formed_utf8
                          (request "GET /health HTTP/1.1" [] [])))) =
       [reply 500 (internal_error detail)].
Proof.
  split; [reflexivity|].
  destruct (get_health_replies_500 exact_rnd decodes_nothing no_float decimal_int well_formed_utf8
              (request "GET /health HTTP/1.1" [] [])
              _ _ ["HTTP/1.1"] (Ok []) [] eq_refl eq_refl eq_refl eq_refl) as [_ [detail H]].
  exists detail. rewrite H. reflexivity.
Defined.

Lemma post_melody_rejects_bad_notes_witness :
  valid_notes (PList [PInt 440; PInt 100]) = false
  /\ sent (conn (snd (handle_post_melody exact_rnd no_float decimal_int
                        (PDict [("notes", PList [PInt 440; PInt 100])])
                        (request "POST /melody HTTP/1.1" [] [])))) =
     [reply 400 (PDict [("error", PStr "Invalid melody payload");
                        ("detail", PStr "notes must be [[freq, ms], ...]")])].
Proof.
  split; [reflexivity|].
  rewrite (proj1 (post_melody_rejects_bad_notes exact_rnd no_float decimal_int
                    (PDict [("notes", PList [PInt 440; PInt 100])])
                    (PList [PInt 440; PInt 100]) 50 (1 # 2)
                    (request "POST /melody HTTP/1.1" [] [])
                    eq_refl eq_refl eq_refl eq_refl)).
  reflexivity.
Defined.

Lemma post_melody_replies_500_witness :
  melody_params exact_rnd
        no_float decimal_int (PDict [("notes", PList [PList [PInt 440; PInt 100]])])
  = Ok ([PList [PInt 440; PInt 100]], 50, (1 # 2)%Q)
  /\ exists detail,
       sent (conn (snd (handle_client exact_rnd
                          (decodes_to (PDict [("notes", PList [PList [PInt 440; PInt 100]])]))
                          no_float decimal_int well_formed_utf8
                          (request "POST /melody HTTP/1.1" ["Content-Length: 5"] ["{...}"])))) =
       [reply 500 (internal_error detail)].
Proof.
  split; [reflexivity|].
  destruct (post_melody_replies_500 exact_rnd
              (decodes_to (PDict [("notes", PList [PList [PInt 440; PInt 100]])]))
                    no_float decimal_int well_formed_utf8
              (request "POST /melody HTTP/1.1" ["Content-Length: 5"] ["{...}"])
              _ _ ["HTTP/1.1"] [("content-length", "5")] [] 5 "{...}" [] _ _ _ _
              eq_refl eq_refl eq_refl eq_refl eq_refl eq_refl eq_refl eq_refl) as [detail H].
  exists detail. rewrite H. reflexivity.
Defined.

Lemma handle_client_status_codes_witness :
  sent (conn (snd (handle_client exact_rnd decodes_nothing no_float decimal_int well_formed_utf8
                     (request "POST /cancel HTTP/1.1" [] [])))) =
  (sent (conn (request "POST /cancel HTTP/1.1" [] []))
   ++ [reply 202 (PDict [("status", PStr "canceled")])])%list
  /\ In (status (reply 202 (PDict [("status", PStr "canceled")]))) [202; 400; 404; 405; 500].
Proof.
  assert (H : sent (conn (snd (handle_client exact_rnd decodes_nothing
        no_float decimal_int well_formed_utf8
                                 (request "POST /cancel HTTP/1.1" [] [])))) =
              (sent (conn (request "POST /cancel HTTP/1.1" [] []))
               ++ [reply 202 (PDict [("status", PStr "canceled")])])%list) by reflexivity.
  split; [exact H|].
  exact (proj1 (handle_client_status_codes exact_rnd decodes_nothing
        no_float decimal_int well_formed_utf8
                  (request "POST /cancel HTTP/1.1" [] []) _ _ H (or_introl eq_refl))).
Defined.


Lemma other_methods_witness :
  split_ws (strip ("PUT /sensor HTTP/1.1" ++ crlf)) = ["PUT"; "/sensor"; "HTTP/1.1"]
  /\ "PUT" <> "GET" /\ "PUT" <> "POST"
  /\ sent (conn (snd (handle_client exact_rnd decodes_nothing no_float decimal_int well_formed_utf8
                        (request "PUT /sensor HTTP/1.1" [] [])))) =
     [reply 405 (PDict [("error", PStr "Method Not Allowed")])].
Proof.
  assert (Hg : "PUT" <> "GET") by discriminate.
  assert (Hp : "PUT" <> "POST") by discriminate.
  split; [reflexivity|]. split; [exact Hg|]. split; [exact Hp|].
  rewrite (other_methods_get_405 exact_rnd decodes_nothing no_float decimal_int well_formed_utf8
             (request "PUT /sensor HTTP/1.1" [] [])
             _ _ "PUT" "/sensor" ["HTTP/1.1"] [] [] eq_refl eq_refl eq_refl Hg Hp eq_refl).
  reflexivity.
Defined.

Lemma unknown_paths_witness :
  "/nope" <> "/sensor" /\ "/nope" <> "/health"
  /\ sent (conn (snd (handle_client exact_rnd decodes_nothing no_float decimal_int well_formed_utf8
                        (request "GET /nope HTTP/1.1" [] [])))) =
     [reply 404 (PDict [("error", PStr "Not Found")])].
Proof.
  assert (Hs : "/nope" <> "/sensor") by discriminate.
  assert (Hh : "/nope" <> "/health") by discriminate.
  split; [exact Hs|]. split; [exact Hh|].
  rewrite (proj1 (unknown_paths_get_404 exact_rnd decodes_nothing
        no_float decimal_int well_formed_utf8
                    (request "GET /nope HTTP/1.1" [] [])
                    _ _ "GET" "/nope" ["HTTP/1.1"] [] [] eq_refl eq_refl eq_refl eq_refl)
             eq_refl Hs Hh).
  reflexivity.
Defined.

Lemma short_request_line_witness :
  (length (split_ws (strip ("GET" ++ crlf))) < 2)%nat
  /\ sent (conn (snd (handle_client exact_rnd decodes_nothing no_float decimal_int well_formed_utf8
                        (request "GET" [] [])))) =
     [reply 400 (PDict [("error", PStr "Bad Request")])].
Proof.
  assert (H : (length (split_ws (strip ("GET" ++ crlf))) < 2)%nat) by (simpl; lia).
  split; [exact H|].
  rewrite (short_request_line_gets_400 exact_rnd decodes_nothing
        no_float decimal_int well_formed_utf8
             (request "GET" [] []) _ _ eq_refl eq_refl eq_refl H).
  reflexivity.
Defined.

Lemma undecodable_body_witness :
  decode_body decodes_nothing "{..." = None
  /\ sent (conn (snd (handle_client exact_rnd decodes_nothing no_float decimal_int well_formed_utf8
                        (request "POST /cancel HTTP/1.1" ["Content-Length: 4"] ["{..."])))) =
     [reply 400 (PDict [("error", PStr "Invalid JSON")])].
Proof.
  split; [reflexivity|].
  rewrite (proj1 (undecodable_body_gets_400 exact_rnd decodes_nothing
        no_float decimal_int well_formed_utf8
                    (request "POST /cancel HTTP/1.1" ["Content-Length: 4"] ["{..."])
                    _ _ "/cancel" ["HTTP/1.1"] [("content-length", "4")] [] 4 "{..." []
                    eq_refl eq_refl eq_refl eq_refl eq_refl eq_refl eq_refl)).
  reflexivity.
Defined.

Lemma bad_content_length_witness :
  content_length decimal_int [("content-length", "ten")]
  = Raise (Exn ValueError "invalid syntax for integer")
  /\ sent (conn (snd (handle_client exact_rnd decodes_nothing no_float decimal_int well_formed_utf8
                        (request "POST /tone HTTP/1.1" ["Content-Length: ten"] ["{...}"])))) =
     [reply 500 (internal_error "invalid syntax for integer")].
Proof.
  split; [reflexivity|].
  rewrite (bad_content_length_gets_500 exact_rnd decodes_nothing
        no_float decimal_int well_formed_utf8
             (request "POST /tone HTTP/1.1" ["Content-Length: ten"] ["{...}"])
             _ _ "/tone" ["HTTP/1.1"] [("content-length", "ten")] [] _
             eq_refl eq_refl eq_refl eq_refl eq_refl).
  reflexivity.
Defined.

Lemma post_cancel_ignores_body_witness :
  decode_body (decodes_to (PList [PInt 1])) "[1]" = Some (PList [PInt 1])
  /\ sent (conn (snd (handle_client exact_rnd (decodes_to (PList [PInt 1]))
        no_float decimal_int well_formed_utf8
                        (request "POST /cancel HTTP/1.1" ["Content-Length: 3"] ["[1]"])))) =
     [reply 202 (PDict [("status", PStr "canceled")])].
Proof.
  split; [reflexivity|].
  rewrite (proj1 (post_cancel_ignores_body exact_rnd (decodes_to (PList [PInt 1]))
        no_float decimal_int well_formed_utf8
                    (request "POST /cancel HTTP/1.1" ["Content-Length: 3"] ["[1]"])
                    _ _ ["HTTP/1.1"] [("content-length", "3")] [] 3 "[1]" [] _
                    eq_refl eq_refl eq_refl eq_refl eq_refl eq_refl eq_refl)).
  reflexivity.
Defined.

Lemma undecodable_line_witness :
  well_formed_utf8 (bad_header ++ crlf) = false
  /\ exists detail,
       handle_client exact_rnd decodes_nothing no_float decimal_int well_formed_utf8
         (request "POST /cancel HTTP/1.1" [bad_header] [])
       = (Ok tt, replied (reply 500 (internal_error detail))
                   (consumed [crlf] [] (request "POST /cancel HTTP/1.1" [bad_header] []))).
Proof.
  split; [reflexivity|].
  exact (proj2 (undecodable_line_gets_500 exact_rnd decodes_nothing no_float decimal_int
                  well_formed_utf8 (request "POST /cancel HTTP/1.1" [bad_header] [])
                  _ _ eq_refl eq_refl)
           "POST" "/cancel" ["HTTP/1.1"] [] (bad_header ++ crlf) [crlf]
           eq_refl eq_refl eq_refl (Forall_nil_2 _) eq_refl eq_refl).
Defined.

Lemma bar_length_witness :
  Rounding exact_rnd
  /\ 0 <= bar_length exact_rnd (7 # 2) <= 10
  /\ length (bar exact_rnd (7 # 2)) = 10%nat.
Proof.
  split; [exact exact_rounding|].
  destruct (@bar_length_bounded exact_rnd exact_rounding (7 # 2)) as (H1 & H2 & _).
  split; assumption.
Defined.

Lemma conductor_melody_witness :
  melody_broadcast exact_rnd no_float decimal_int ["192.168.1.101"]
    [[("freq", PInt 262); ("ms", PInt 400); ("duty", PFloat (1 # 2))]] 20
  = Ok (Some (PDict [("notes", PList [PDict [("freq", PInt 262); ("ms", PInt 400);
                                             ("duty", PFloat (1 # 2))]]);
                     ("gap_ms", PInt 20)]))
  /\ sent (conn (snd (handle_post_melody exact_rnd no_float decimal_int
                        (PDict [("notes", PList [PDict [("freq", PInt 262); ("ms", PInt 400);
                                                        ("duty", PFloat (1 # 2))]]);
                                ("gap_ms", PInt 20)])
                        (request "POST /melody HTTP/1.1" [] [])))) =
     [reply 400 (PDict [("error", PStr "Invalid melody payload");
                        ("detail", PStr "notes must be [[freq, ms], ...]")])].
Proof.
  split; [reflexivity|].
  rewrite (conductor_melody_is_rejected exact_rnd no_float decimal_int ["192.168.1.101"]
             [[("freq", PInt 262); ("ms", PInt 400); ("duty", PFloat (1 # 2))]] 20 _
             (request "POST /melody HTTP/1.1" [] []) eq_refl).
  reflexivity.
Defined.

Local Close Scope string_scope.
